(** * scripts/generate_icon.py: the Din app-icon generator

    A shallow embedding of the icon script and the properties of its
    rendering pipeline.

    - Python [int] is [Z]; Python [float] is a real number together with an
      explicit rounding operator ([Float.model]): every float operation of
      the script is written as the exact operation followed by [rnd], and
      [math.exp] / [math.sin] are the model's [fexp] / [fsin].  The laws the
      model asks for hold of IEEE-754 binary64 with round-to-nearest and of
      a libm whose [exp] is monotone and accurate to 0.1%; they also hold of
      exact real arithmetic ([Float.exact]).
    - A PIL image is a total function from coordinates to pixels; only the
      coordinates inside [0, SIZE) x [0, SIZE) are meaningful.  A pixel
      write outside that square is an error ([None]).
    - [Image.alpha_composite] is Pillow's integer "over" operator, written
      out pixel by pixel.  The drawing primitives whose rasterisation is
      Pillow's business ([ImageDraw.line], [ImageDraw.pieslice],
      [ImageFilter.GaussianBlur], the PNG encoder) are fields of
      [Imaging.backend]. *)

From Stdlib Require Import Reals Lra Lia ZArith List Bool.
Import ListNotations.

Open Scope Z_scope.

(** ** Module-level constants (lines 18-20) *)

Definition SIZE : Z := 1024.
Definition MARGIN : Z := 100.
Definition CORNER : Z := 185.

(** ** Python numerics *)

(** [int(r)] on a float: truncation toward zero. *)
Definition py_int (r : R) : Z :=
  if Rle_dec 0 r then Zfloor r else Zceil r.

(** [range(n)] for an integer [n]. *)
Definition range (n : Z) : list Z :=
  map Z.of_nat (seq 0 (Z.to_nat n)).

Module Float.

(** What the script needs of double-precision arithmetic. [rnd] maps the
    exact result of an operation to the double that represents it. *)
Record model : Type := Model {
  rnd : R -> R;
  fexp : R -> R;
  fsin : R -> R;
  rnd_mono : forall x y : R, (x <= y)%R -> (rnd x <= rnd y)%R;
  rnd_exact : forall m k : Z,
      Z.abs m <= 2 ^ 53 -> 0 <= k <= 1022 ->
      rnd (IZR m / IZR (2 ^ k)) = (IZR m / IZR (2 ^ k))%R;
  fexp_mono : forall x y : R, (x <= y)%R -> (fexp x <= fexp y)%R;
  fexp_acc : forall x : R, (-4 <= x <= 0)%R ->
      (Rabs (fexp x - exp x) <= exp x / 1000)%R;
  fsin_bound : forall x : R, (-1 <= fsin x <= 1)%R
}.

Section Ops.
Variable M : model.

(** A float literal, and an [int] operand converted to float. *)
Definition lit (q : R) : R := rnd M q.
Definition of_int (z : Z) : R := rnd M (IZR z).

Definition add (a b : R) : R := rnd M (a + b).
Definition mul (a b : R) : R := rnd M (a * b).
(** [a / b] on two ints: Python's true division, correctly rounded. *)
Definition div_int (a b : Z) : R := rnd M (IZR a / IZR b).
End Ops.

(** Exact real arithmetic is a model. *)
Definition exact : model.
Proof.
  refine (Model (fun x => x) exp sin _ _ _ _ _).
  - intros x y H; exact H.
  - intros m k _ _; reflexivity.
  - intros x y [H | H].
    + left; apply exp_increasing; exact H.
    + right; rewrite H; reflexivity.
  - intros x _. replace (exp x - exp x)%R with 0%R by ring.
    rewrite Rabs_R0. pose proof (exp_pos x). lra.
  - intro x. apply SIN_bound.
Defined.

End Float.

(** ** The wave height function (lines 36-38)

    [base_y + amplitude * math.sin(freq * x + phase)] with [base_y],
    [amplitude] and [x] ints and [freq], [phase] floats, as [main] calls it. *)
Definition wave_y (M : Float.model) (x : Z) (base_y amplitude : Z)
    (freq phase : R) : R :=
  Float.add M (Float.of_int M base_y)
    (Float.mul M (Float.of_int M amplitude)
       (Float.fsin M (Float.add M (Float.mul M freq (Float.of_int M x)) phase))).

(** ** The body-fill alpha (lines 61-62)

    [t = dy / bloom_depth; alpha = int(edge_color[3] * 0.6 * math.exp(-3.5 * t))].
    The division is only reached for [dy] in [range(bloom_depth)], hence
    with [bloom_depth >= 1]. *)
Definition body_alpha (M : Float.model) (edge_alpha bloom_depth dy : Z) : Z :=
  let t := Float.div_int M dy bloom_depth in
  py_int
    (Float.mul M
       (Float.mul M (Float.of_int M edge_alpha) (Float.lit M (6 / 10)))
       (Float.fexp M (Float.mul M (- Float.lit M (35 / 10)) t))).

(** ** Pixels and images *)

Record rgba : Type := RGBA { red : Z; green : Z; blue : Z; alpha : Z }.

Definition transparent : rgba := RGBA 0 0 0 0.

(** An image of mode "RGBA" ([image rgba]) or "L" ([image Z]), of size
    [SIZE] x [SIZE], indexed as [img x y]. *)
Definition image (A : Type) : Type := Z -> Z -> A.

(** [Image.new(mode, (SIZE, SIZE), color)]. *)
Definition new_image {A : Type} (color : A) : image A := fun _ _ => color.

Definition in_bounds (x y : Z) : bool :=
  (0 <=? x) && (x <? SIZE) && (0 <=? y) && (y <? SIZE).

(** [img.putpixel((x, y), v)] and [pixels[x, y] = v].  A coordinate outside
    the image is refused here; the script guards its writes so that it never
    relies on what Pillow does with one.  The value is stored as given:
    this is what Pillow does with 8-bit channel values, and it clips any
    other to 0..255, so a statement about a stored colour is about the
    code when its channels are 8-bit values. *)
Definition putpixel {A : Type} (img : image A) (x y : Z) (v : A)
    : option (image A) :=
  if in_bounds x y
  then Some (fun x' y' => if (x' =? x) && (y' =? y) then v else img x' y')
  else None.

(** ** Python [for] loops

    The loop body maps the loop variable and the current state to the next
    state and says whether the loop goes on ([Next], also after [continue])
    or stops ([Break]); an exception in the body is [None]. *)
Inductive ctl : Type := Next | Break.

Fixpoint for_loop {A S : Type} (xs : list A)
    (body : A -> S -> option (ctl * S)) (s : S) : option S :=
  match xs with
  | [] => Some s
  | x :: xs' =>
      match body x s with
      | None => None
      | Some (Break, s') => Some s'
      | Some (Next, s') => for_loop xs' body s'
      end
  end.

(** Sequencing of steps that may raise, and a loop body that ran to its
    end. *)
Definition bind {A B : Type} (o : option A) (k : A -> option B) : option B :=
  match o with
  | Some a => k a
  | None => None
  end.

Notation "x <- e ;; k" := (bind e (fun x => k))
  (at level 61, e at next level, right associativity).

Definition next {S : Type} (o : option S) : option (ctl * S) :=
  s <- o ;; Some (Next, s).

(** ** [Image.alpha_composite] (Pillow, libImaging/AlphaComposite.c)

    The integer "over" operator on 8-bit channels; the intermediate values
    are C [UINT32] and the results [UINT8]. *)
Definition PRECISION_BITS : Z := 7.
Definition u32 (a : Z) : Z := a mod 2 ^ 32.
Definition u8 (a : Z) : Z := a mod 2 ^ 8.
Definition shiftfordiv255 (a : Z) : Z := Z.shiftr (Z.shiftr a 8 + a) 8.

Definition alpha_composite_px (dst src : rgba) : rgba :=
  if alpha src =? 0 then dst
  else
    let blend := u32 (alpha dst * (255 - alpha src)) in
    let outa255 := u32 (alpha src * 255 + blend) in
    let coef1 :=
      u32 (alpha src * 255 * 255 * Z.shiftl 1 PRECISION_BITS) / outa255 in
    let coef2 := u32 (255 * Z.shiftl 1 PRECISION_BITS - coef1) in
    let chan (s d : Z) :=
      let tmp := u32 (s * coef1 + d * coef2) in
      u8 (Z.shiftr (shiftfordiv255 (u32 (tmp + Z.shiftl 128 PRECISION_BITS)))
            PRECISION_BITS) in
    RGBA (chan (red src) (red dst))
         (chan (green src) (green dst))
         (chan (blue src) (blue dst))
         (u8 (shiftfordiv255 (u32 (outa255 + 128)))).

(** [Image.alpha_composite(im1, im2)]: [im2] over [im1]. *)
Definition alpha_composite (im1 im2 : image rgba) : image rgba :=
  fun x y => alpha_composite_px (im1 x y) (im2 x y).

(** [img.putalpha(mask)]: the alpha band is replaced by the "L" mask. *)
Definition putalpha (img : image rgba) (mask : image Z) : image rgba :=
  fun x y =>
    RGBA (red (img x y)) (green (img x y)) (blue (img x y)) (mask x y).

(** [ImageDraw.rectangle([x0, y0, x1, y1], fill)]: both corners included.
    The definitions below are the drawing on a box with [x0 <= x1] and
    [y0 <= y1] and with an 8-bit fill; Pillow raises [ValueError] on any
    other box and clips any other fill. *)
Definition box : Type := (Z * Z * Z * Z)%type.

Definition in_box (b : box) (x y : Z) : bool :=
  let '(x0, y0, x1, y1) := b in
  (x0 <=? x) && (x <=? x1) && (y0 <=? y) && (y <=? y1).

Definition rectangle {A : Type} (img : image A) (b : box) (fill : A)
    : image A :=
  fun x y => if in_box b x y then fill else img x y.

(** ** Pillow's rasterisers *)
Module Imaging.

Record backend : Type := Backend {
  (** [ImageDraw.Draw(layer).line(points, fill=fill, width=1)] *)
  draw_line : image rgba -> list (Z * Z) -> rgba -> image rgba;
  (** [layer.filter(ImageFilter.GaussianBlur(radius))] *)
  gaussian_blur : Z -> image rgba -> image rgba;
  (** [ImageDraw.Draw(mask).pieslice(box, start, end, fill=fill)] *)
  pieslice : image Z -> box -> Z -> Z -> Z -> image Z;
  (** the PNG encoder behind [img.save(path)] *)
  png_encode : image rgba -> list Z;
  (** a polyline paints each of its vertices with the fill colour; *)
  draw_line_points : forall img points fill x y,
      In (x, y) points -> draw_line img points fill x y = fill;
  (** a pie slice is drawn inside its bounding box ... *)
  pieslice_in_box : forall img b s e fill x y,
      in_box b x y = false -> pieslice img b s e fill x y = img x y;
  (** ... and, not being anti-aliased, paints with the fill value only. *)
  pieslice_paints_fill : forall img b s e fill x y,
      pieslice img b s e fill x y = img x y \/
      pieslice img b s e fill x y = fill
}.

(** A plain rasteriser: the polyline's sample points, no blur, a quarter
    disc tested in integers, and a raw dump of the pixels. *)
Definition plain_line (img : image rgba) (points : list (Z * Z))
    (fill : rgba) : image rgba :=
  fun x y =>
    if existsb (fun p => (fst p =? x) && (snd p =? y)) points
    then fill else img x y.

Definition in_quadrant (start dx dy : Z) : bool :=
  if start =? 180 then (dx <=? 0) && (dy <=? 0)
  else if start =? 270 then (0 <=? dx) && (dy <=? 0)
  else if start =? 90 then (dx <=? 0) && (0 <=? dy)
  else if start =? 0 then (0 <=? dx) && (0 <=? dy)
  else false.

Definition plain_pieslice (img : image Z) (b : box) (s e fill : Z)
    : image Z :=
  fun x y =>
    let '(x0, y0, x1, y1) := b in
    let dx := 2 * x - (x0 + x1) in
    let dy := 2 * y - (y0 + y1) in
    let w := x1 - x0 in
    let h := y1 - y0 in
    if in_box b x y && in_quadrant s dx dy
       && (dx * dx * (h * h) + dy * dy * (w * w) <=? w * w * (h * h))
    then fill else img x y.

Definition raw_dump (img : image rgba) : list Z :=
  flat_map
    (fun y =>
       flat_map
         (fun x =>
            [red (img x y); green (img x y); blue (img x y); alpha (img x y)])
         (range SIZE))
    (range SIZE).

Definition plain : backend.
Proof.
  refine (Backend plain_line (fun _ img => img) plain_pieslice raw_dump
            _ _ _).
  - intros img points fill x y H. unfold plain_line.
    replace (existsb _ points) with true; [reflexivity |].
    symmetry. apply existsb_exists. exists (x, y). split; [exact H |].
    simpl. rewrite !Z.eqb_refl. reflexivity.
  - intros img b s e fill x y H. unfold plain_pieslice.
    destruct b as [[[x0 y0] x1] y1]. rewrite H. reflexivity.
  - intros img b s e fill x y. unfold plain_pieslice.
    destruct b as [[[x0 y0] x1] y1].
    match goal with |- context [if ?c then _ else _] => destruct c end;
      [right | left]; reflexivity.
Defined.

End Imaging.

(** ** [rounded_rect] (lines 26-33)

    The drawing context mutates the mask in place; here each call returns
    the mask it leaves behind.  This is the function on a box that the
    radius fits ([0 <= radius], [x0 + 2 * radius <= x1],
    [y0 + 2 * radius <= y1]), as [main] calls it: on any other box the
    first [rectangle] or [pieslice] with an inverted box raises
    [ValueError] and nothing is returned, so the properties of
    [rounded_rect] are stated under these hypotheses. *)
Definition rounded_rect (B : Imaging.backend) (draw : image Z) (xy : box)
    (radius fill : Z) : image Z :=
  let '(x0, y0, x1, y1) := xy in
  let draw := rectangle draw (x0 + radius, y0, x1 - radius, y1) fill in
  let draw := rectangle draw (x0, y0 + radius, x1, y1 - radius) fill in
  let draw :=
    Imaging.pieslice B draw (x0, y0, x0 + 2 * radius, y0 + 2 * radius)
      180 270 fill in
  let draw :=
    Imaging.pieslice B draw (x1 - 2 * radius, y0, x1, y0 + 2 * radius)
      270 360 fill in
  let draw :=
    Imaging.pieslice B draw (x0, y1 - 2 * radius, x0 + 2 * radius, y1)
      90 180 fill in
  Imaging.pieslice B draw (x1 - 2 * radius, y1 - 2 * radius, x1, y1)
    0 90 fill.

(** ** [draw_glass_wave] (lines 41-81) *)

(** One iteration of [for dy in range(bloom_depth)] (lines 57-65). *)
Definition body_fill_dy (M : Float.model) (edge_color : rgba)
    (body_color : Z * Z * Z) (bloom_depth x wy dy : Z)
    (body_pixels : image rgba) : option (ctl * image rgba) :=
  let '(br, bg, bb) := body_color in
  let y := wy + dy in
  if (y <? 0) || (y >=? SIZE) then Some (Next, body_pixels)
  else
    let a := body_alpha M (alpha edge_color) bloom_depth dy in
    if a <? 1 then Some (Break, body_pixels)
    else next (putpixel body_pixels x y (RGBA br bg bb a)).

(** One iteration of [for x in range(SIZE)] (lines 55-65). *)
Definition body_fill_x (M : Float.model) (y_func : Z -> R)
    (edge_color : rgba) (body_color : Z * Z * Z) (bloom_depth x : Z)
    (body_pixels : image rgba) : option (ctl * image rgba) :=
  let wy := py_int (y_func x) in
  next
    (for_loop (range bloom_depth)
       (body_fill_dy M edge_color body_color bloom_depth x wy) body_pixels).

(** The gradient body layer (lines 51-65). *)
Definition body_fill (M : Float.model) (y_func : Z -> R) (edge_color : rgba)
    (body_color : Z * Z * Z) (bloom_depth : Z) : option (image rgba) :=
  for_loop (range SIZE)
    (body_fill_x M y_func edge_color body_color bloom_depth)
    (new_image transparent).

(** The 1-pixel edge line (lines 70-73) and its blurred copy (lines 76-77). *)
Definition edge_line (B : Imaging.backend) (y_func : Z -> R)
    (edge_color : rgba) : image rgba :=
  let points := map (fun x => (x, py_int (y_func x))) (range SIZE) in
  Imaging.draw_line B (new_image transparent) points edge_color.

Definition draw_glass_wave (B : Imaging.backend) (M : Float.model)
    (img : image rgba) (y_func : Z -> R) (edge_color : rgba)
    (body_color : Z * Z * Z) (bloom_depth bloom_blur : Z)
    : option (image rgba) :=
  body_layer <- body_fill M y_func edge_color body_color bloom_depth ;;
  let img := alpha_composite img body_layer in
  let edge_layer := edge_line B y_func edge_color in
  let bloom_layer := edge_layer in
  let bloom_layer := Imaging.gaussian_blur B bloom_blur bloom_layer in
  let img := alpha_composite img bloom_layer in
  let img := alpha_composite img edge_layer in
  Some img.

(** ** [main] (lines 84-178) *)

(** A wave dictionary of the [waves] list. *)
Record wave : Type := Wave {
  base_y : Z;
  amplitude : Z;
  freq : R;
  phase : R;
  edge : rgba;
  body : Z * Z * Z;
  depth : Z;
  blur : Z
}.

(** Lines 111-162; the float literals are rounded by the model. *)
Definition waves (M : Float.model) : list wave :=
  [ Wave 300 25 (Float.lit M (6 / 1000)) (Float.lit M (8 / 10))
      (RGBA 100 190 235 140) (25, 60, 100) 200 10;
    Wave 400 45 (Float.lit M (85 / 10000)) (Float.lit M (36 / 10))
      (RGBA 110 200 240 170) (28, 70, 115) 190 9;
    Wave 510 50 (Float.lit M (7 / 1000)) (Float.lit M (12 / 10))
      (RGBA 130 215 250 200) (30, 80, 130) 180 8;
    Wave 620 42 (Float.lit M (95 / 10000)) (Float.lit M (50 / 10))
      (RGBA 150 225 255 225) (35, 90, 140) 165 7;
    Wave 740 35 (Float.lit M (8 / 1000)) (Float.lit M (25 / 10))
      (RGBA 175 240 255 250) (40, 100, 150) 150 6 ].

(** The rounded-rect mask (lines 88-94). *)
Definition build_mask (B : Imaging.backend) : image Z :=
  rounded_rect B (new_image 0)
    (MARGIN, MARGIN, SIZE - MARGIN, SIZE - MARGIN) CORNER 255.

(** The colour of background row [y] (lines 99-102). *)
Definition background_color (M : Float.model) (y : Z) : rgba :=
  let t := Float.div_int M y SIZE in
  let r :=
    py_int (Float.add M (Float.of_int M 5) (Float.mul M t (Float.of_int M 8))) in
  let g :=
    py_int (Float.add M (Float.of_int M 5) (Float.mul M t (Float.of_int M 8))) in
  let b :=
    py_int (Float.add M (Float.of_int M 12) (Float.mul M t (Float.of_int M 18))) in
  RGBA r g b 255.

(** One iteration of [for y in range(SIZE)] (lines 98-104). *)
Definition background_row (M : Float.model) (y : Z) (content : image rgba)
    : option (ctl * image rgba) :=
  let c := background_color M y in
  next
    (for_loop (range SIZE)
       (fun x content => next (putpixel content x y c)) content).

Definition paint_background (M : Float.model) : option (image rgba) :=
  for_loop (range SIZE) (background_row M) (new_image transparent).

(** The [y_func] closure of a wave (lines 165-167). *)
Definition y_func_of (M : Float.model) (w : wave) : Z -> R :=
  fun x => wave_y M x (base_y w) (amplitude w) (freq w) (phase w).

(** One iteration of [for w in waves] (lines 164-170). *)
Definition wave_step (B : Imaging.backend) (M : Float.model) (w : wave)
    (content : image rgba) : option (ctl * image rgba) :=
  next
    (draw_glass_wave B M content (y_func_of M w) (edge w) (body w)
       (depth w) (blur w)).

(** [for w in waves: content = draw_glass_wave(content, ...)]. *)
Definition render_waves (B : Imaging.backend) (M : Float.model)
    (ws : list wave) (content : image rgba) : option (image rgba) :=
  for_loop ws (wave_step B M) content.

(** The image [main] hands to [img.save] (lines 85-174). *)
Definition main_image (B : Imaging.backend) (M : Float.model)
    : option (image rgba) :=
  let img := new_image transparent in
  let mask := build_mask B in
  content <- paint_background M ;;
  content <- render_waves B M (waves M) content ;;
  let content := putalpha content mask in
  Some (alpha_composite img content).

(** ** Specification-side definitions *)

(** Which depths of a column end up written: the loop of lines 56-65 read
    as a predicate on the depth [d], for a column whose crest is at [wy] and
    whose alpha at depth [dy] is [alpha_at dy]. *)
Fixpoint written (wy : Z) (alpha_at : Z -> Z) (dys : list Z) (d : Z) : bool :=
  match dys with
  | [] => false
  | dy :: rest =>
      if (wy + dy <? 0) || (wy + dy >=? SIZE) then written wy alpha_at rest d
      else if alpha_at dy <? 1 then false
      else (dy =? d) || written wy alpha_at rest d
  end.

(** The body-fill loop without its early exit: every depth of
    [range(bloom_depth)] is visited and every in-bounds pixel written. *)
Definition full_body_fill_dy (M : Float.model) (edge_color : rgba)
    (body_color : Z * Z * Z) (bloom_depth x wy dy : Z)
    (body_pixels : image rgba) : option (ctl * image rgba) :=
  let '(br, bg, bb) := body_color in
  let y := wy + dy in
  if (y <? 0) || (y >=? SIZE) then Some (Next, body_pixels)
  else
    let a := body_alpha M (alpha edge_color) bloom_depth dy in
    next (putpixel body_pixels x y (RGBA br bg bb a)).

Definition full_body_fill (M : Float.model) (y_func : Z -> R)
    (edge_color : rgba) (body_color : Z * Z * Z) (bloom_depth : Z)
    : option (image rgba) :=
  for_loop (range SIZE)
    (fun x body_pixels =>
       next
         (for_loop (range bloom_depth)
            (full_body_fill_dy M edge_color body_color bloom_depth x
               (py_int (y_func x)))
            body_pixels))
    (new_image transparent).

(** The three layers of one wave in the order the specification gives:
    body fill, blurred bloom, sharp edge. *)
Definition wave_layers (B : Imaging.backend) (M : Float.model) (w : wave)
    : option (list (image rgba)) :=
  body_layer <- body_fill M (y_func_of M w) (edge w) (body w) (depth w) ;;
  let edge_layer := edge_line B (y_func_of M w) (edge w) in
  Some [body_layer; Imaging.gaussian_blur B (blur w) edge_layer; edge_layer].

(** The layers of a list of waves, wave after wave. *)
Fixpoint all_layers (B : Imaging.backend) (M : Float.model) (ws : list wave)
    : option (list (image rgba)) :=
  match ws with
  | [] => Some []
  | w :: ws' =>
      ls <- wave_layers B M w ;;
      rest <- all_layers B M ws' ;;
      Some (ls ++ rest)
  end.

(** Layers put one after the other over a canvas. *)
Definition composite_layers (canvas : image rgba)
    (layers : list (image rgba)) : image rgba :=
  fold_left alpha_composite layers canvas.


(** Pixel [(x, y)] is painted by the body fill of a wave whose crest in
    column [x] is at [wy x] and whose alpha at depth [d] is [alpha_at d]:
    it lies on the canvas within [bloom_depth] below the crest, its alpha
    is visible, and so is the alpha of every on-canvas pixel above it in
    the column. *)
Definition painted (wy : Z -> Z) (alpha_at : Z -> Z) (bloom_depth : Z)
    (x y : Z) : Prop :=
  0 <= x < SIZE /\ 0 <= y < SIZE /\
  0 <= y - wy x < bloom_depth /\
  1 <= alpha_at (y - wy x) /\
  forall d', 0 <= d' < y - wy x -> 0 <= wy x + d' < SIZE -> 1 <= alpha_at d'.

(** The first wave of the list, with its literals read exactly. *)
Definition first_wave : wave :=
  Wave 300 25 (6 / 1000) (8 / 10) (RGBA 100 190 235 140) (25, 60, 100) 200 10.






(** A pixel whose colour channels are 8-bit values. *)
Definition byte_rgb (p : rgba) : Prop :=
  0 <= red p <= 255 /\ 0 <= green p <= 255 /\ 0 <= blue p <= 255.

(** * Properties *)

(** ** Numerics *)

Lemma py_int_le (x y : R) : (x <= y)%R -> py_int x <= py_int y.
Proof.
  intro H. unfold py_int.
  destruct (Rle_dec 0 x) as [Hx | Hx], (Rle_dec 0 y) as [Hy | Hy].
  - apply Zfloor_le; exact H.
  - lra.
  - apply Z.le_trans with 0.
    + assert (Hc : Zceil x <= Zceil 0) by (apply Zceil_le; lra).
      replace (Zceil 0) with 0 in Hc; [exact Hc |].
      symmetry; apply Zceil_eq; simpl; lra.
    + apply Zfloor_lub; simpl; exact Hy.
  - apply Zceil_le; exact H.
Qed.

Lemma py_int_IZR (z : Z) : py_int (IZR z) = z.
Proof.
  unfold py_int. destruct (Rle_dec 0 (IZR z)).
  - apply ZfloorZ.
  - apply Zceil_eq. lra.
Qed.

Lemma py_int_lower (z : Z) (x : R) : 0 <= z -> (IZR z <= x)%R -> z <= py_int x.
Proof.
  intros Hz H. rewrite <- (py_int_IZR z). apply py_int_le; exact H.
Qed.

Module FloatFacts.
Import Float.

Section Facts.
Variable M : model.

Lemma rnd_int (z : Z) : Z.abs z <= 2 ^ 53 -> rnd M (IZR z) = IZR z.
Proof.
  intro H. pose proof (rnd_exact M z 0 H ltac:(lia)) as E.
  change (IZR (2 ^ 0)) with 1%R in E.
  replace (IZR z / 1)%R with (IZR z) in E by field. exact E.
Qed.

Lemma of_int_exact (z : Z) : Z.abs z <= 2 ^ 53 -> of_int M z = IZR z.
Proof. apply rnd_int. Qed.

Lemma rnd_between (lo hi : Z) (x : R) :
  Z.abs lo <= 2 ^ 53 -> Z.abs hi <= 2 ^ 53 ->
  (IZR lo <= x <= IZR hi)%R -> (IZR lo <= rnd M x <= IZR hi)%R.
Proof.
  intros Hlo Hhi [H1 H2]. split.
  - rewrite <- (rnd_int lo Hlo). apply rnd_mono; exact H1.
  - rewrite <- (rnd_int hi Hhi). apply rnd_mono; exact H2.
Qed.

Lemma rnd_nonneg (x : R) : (0 <= x)%R -> (0 <= rnd M x)%R.
Proof.
  intro H. rewrite <- (rnd_int 0 ltac:(lia)). apply rnd_mono; exact H.
Qed.
End Facts.

End FloatFacts.

(** ** The wave height function *)


Lemma wave_y_exact (x b a : Z) (f p : R) :
  wave_y Float.exact x b a f p = (IZR b + IZR a * sin (f * IZR x + p))%R.
Proof. reflexivity. Qed.




(** ** Loops *)

Lemma in_range (n x : Z) : In x (range n) <-> 0 <= x < n.
Proof.
  unfold range. rewrite in_map_iff. split.
  - intros [k [<- Hk]]. apply in_seq in Hk. lia.
  - intros H. exists (Z.to_nat x). split; [lia |]. apply in_seq. lia.
Qed.

(** Two loop bodies that agree on the elements of the list run alike. *)
Lemma for_loop_ext {A S : Type} (xs : list A)
    (f g : A -> S -> option (ctl * S)) (s : S) :
  (forall x s', In x xs -> f x s' = g x s') ->
  for_loop xs f s = for_loop xs g s.
Proof.
  revert s. induction xs as [| x xs IH]; intros s H; simpl; [reflexivity |].
  rewrite (H x s (or_introl eq_refl)).
  destruct (g x s) as [[[|] s'] |]; try reflexivity.
  apply IH. intros y s'' Hy. apply H. right; exact Hy.
Qed.

(** A loop whose body neither breaks nor raises is a left fold. *)
Lemma for_loop_fold {A S : Type} (xs : list A) (step : S -> A -> S) (s : S) :
  for_loop xs (fun x s' => Some (Next, step s' x)) s
  = Some (fold_left step xs s).
Proof.
  revert s. induction xs as [| x xs IH]; intro s; simpl; [reflexivity |].
  apply IH.
Qed.

Lemma putpixel_in_bounds {A : Type} (img : image A) (x y : Z) (v : A) :
  in_bounds x y = true ->
  putpixel img x y v
  = Some (fun x' y' => if (x' =? x) && (y' =? y) then v else img x' y').
Proof. intro H. unfold putpixel. rewrite H. reflexivity. Qed.

Lemma in_bounds_iff (x y : Z) :
  in_bounds x y = true <-> (0 <= x < SIZE /\ 0 <= y < SIZE).
Proof.
  unfold in_bounds. rewrite !andb_true_iff, !Z.leb_le, !Z.ltb_lt. tauto.
Qed.

Lemma oob_iff (y : Z) :
  (y <? 0) || (y >=? SIZE) = false <-> 0 <= y < SIZE.
Proof.
  rewrite orb_false_iff, Z.ltb_ge, Z.geb_leb, Z.leb_gt. tauto.
Qed.

(** ** The body fill, column by column *)

Section BodyFill.
Variable M : Float.model.
Variable edge_color : rgba.
Variables br bg bb : Z.
Variable bloom_depth : Z.

Local Abbreviation alpha_at := (body_alpha M (alpha edge_color) bloom_depth).
Local Abbreviation step :=
  (body_fill_dy M edge_color (br, bg, bb) bloom_depth).

(** The column loop never raises, and leaves exactly the [written]
    depths of column [x] painted. *)
Lemma body_column_spec (x wy : Z) (dys : list Z) (px : image rgba) :
  0 <= x < SIZE ->
  exists px',
    for_loop dys (step x wy) px = Some px' /\
    forall x' y',
      px' x' y' =
      if (x' =? x) && written wy alpha_at dys (y' - wy)
      then RGBA br bg bb (alpha_at (y' - wy))
      else px x' y'.
Proof.
  intro Hx. revert px.
  induction dys as [| dy rest IH]; intro px.
  - exists px. split; [reflexivity |]. intros x' y'. simpl.
    rewrite andb_false_r. reflexivity.
  - simpl. unfold body_fill_dy at 1.
    destruct ((wy + dy <? 0) || (wy + dy >=? SIZE)) eqn:Hoob.
    + apply IH.
    + destruct (alpha_at dy <? 1) eqn:Ha.
      * exists px. split; [reflexivity |]. intros x' y'.
        rewrite andb_false_r. reflexivity.
      * apply oob_iff in Hoob.
        rewrite putpixel_in_bounds by (apply in_bounds_iff; lia).
        simpl.
        destruct (IH (fun x' y' =>
                        if (x' =? x) && (y' =? wy + dy)
                        then RGBA br bg bb (alpha_at dy) else px x' y'))
          as [px' [Hrun Hpx]].
        exists px'. split; [exact Hrun |]. intros x' y'.
        rewrite Hpx. clear Hpx Hrun.
        destruct (x' =? x) eqn:Ex; simpl; [| reflexivity].
        destruct (written wy alpha_at rest (y' - wy)) eqn:Ew.
        -- rewrite orb_true_r. reflexivity.
        -- rewrite orb_false_r.
           destruct (dy =? y' - wy) eqn:Ed.
           ++ apply Z.eqb_eq in Ed.
              replace (y' =? wy + dy) with true
                by (symmetry; apply Z.eqb_eq; lia).
              rewrite Ed. reflexivity.
           ++ apply Z.eqb_neq in Ed.
              replace (y' =? wy + dy) with false
                by (symmetry; apply Z.eqb_neq; lia).
              reflexivity.
Qed.

(** The loop over the columns [xs]. *)
Lemma body_columns_spec (y_func : Z -> R) (xs : list Z) (px : image rgba) :
  (forall x, In x xs -> 0 <= x < SIZE) ->
  exists px',
    for_loop xs (body_fill_x M y_func edge_color (br, bg, bb) bloom_depth) px
    = Some px' /\
    forall x' y',
      px' x' y' =
      if existsb (Z.eqb x') xs
         && written (py_int (y_func x')) alpha_at (range bloom_depth)
              (y' - py_int (y_func x'))
      then RGBA br bg bb (alpha_at (y' - py_int (y_func x')))
      else px x' y'.
Proof.
  revert px. induction xs as [| x xs IH]; intros px Hxs.
  - exists px. split; reflexivity.
  - simpl for_loop. unfold body_fill_x at 1.
    destruct (body_column_spec x (py_int (y_func x)) (range bloom_depth) px
                (Hxs x (or_introl eq_refl))) as [px1 [Hrun1 Hpx1]].
    rewrite Hrun1. simpl.
    destruct (IH px1 (fun x0 H0 => Hxs x0 (or_intror H0)))
      as [px' [Hrun Hpx]].
    exists px'. split; [exact Hrun |]. intros x' y'.
    rewrite Hpx, Hpx1. clear Hpx Hpx1. simpl existsb.
    destruct (x' =? x) eqn:Ex.
    + apply Z.eqb_eq in Ex. subst x'. simpl.
      destruct (existsb (Z.eqb x) xs); simpl; [| reflexivity].
      destruct (written _ _ _ _); reflexivity.
    + simpl. reflexivity.
Qed.
End BodyFill.

Lemma written_seq (wy : Z) (alpha_at : Z -> Z) (n s : nat) (d : Z) :
  written wy alpha_at (map Z.of_nat (seq s n)) d = true <->
  (Z.of_nat s <= d < Z.of_nat s + Z.of_nat n /\
   0 <= wy + d < SIZE /\
   1 <= alpha_at d /\
   forall d', Z.of_nat s <= d' < d -> 0 <= wy + d' < SIZE -> 1 <= alpha_at d').
Proof.
  revert s. induction n as [| n IH]; intro s.
  - simpl. split; [discriminate | lia].
  - simpl seq. simpl map. simpl written.
    destruct ((wy + Z.of_nat s <? 0) || (wy + Z.of_nat s >=? SIZE)) eqn:Hoob.
    + assert (Hs : ~ 0 <= wy + Z.of_nat s < SIZE).
      { intro H. apply oob_iff in H. congruence. }
      rewrite IH. split.
      * intros (H1 & H2 & H3 & H4). repeat split; try lia.
        intros d' Hd' Hb. destruct (Z.eq_dec d' (Z.of_nat s)) as [-> | Hne];
          [contradiction | apply H4; lia].
      * intros (H1 & H2 & H3 & H4).
        assert (d <> Z.of_nat s) by (intros ->; contradiction).
        repeat split; try lia. intros d' Hd' Hb. apply H4; lia.
    + apply oob_iff in Hoob.
      destruct (alpha_at (Z.of_nat s) <? 1) eqn:Ha.
      * apply Z.ltb_lt in Ha. split; [discriminate |].
        intros (H1 & H2 & H3 & H4).
        destruct (Z.eq_dec d (Z.of_nat s)) as [-> | Hne]; [lia |].
        specialize (H4 (Z.of_nat s) ltac:(lia) Hoob). lia.
      * apply Z.ltb_ge in Ha. rewrite orb_true_iff, Z.eqb_eq, IH. split.
        -- intros [<- | (H1 & H2 & H3 & H4)].
           ++ repeat split; try lia.
           ++ repeat split; try lia. intros d' Hd' Hb.
              destruct (Z.eq_dec d' (Z.of_nat s)) as [-> | Hne];
                [exact Ha | apply H4; lia].
        -- intros (H1 & H2 & H3 & H4).
           destruct (Z.eq_dec (Z.of_nat s) d) as [E | Hne]; [left; exact E |].
           right. repeat split; try lia. intros d' Hd' Hb. apply H4; lia.
Qed.

Lemma written_range (wy : Z) (alpha_at : Z -> Z) (n d : Z) :
  written wy alpha_at (range n) d = true <->
  (0 <= d < n /\ 0 <= wy + d < SIZE /\ 1 <= alpha_at d /\
   forall d', 0 <= d' < d -> 0 <= wy + d' < SIZE -> 1 <= alpha_at d').
Proof.
  unfold range. rewrite written_seq. simpl Z.of_nat.
  split; intros (H1 & H2 & H3 & H4); repeat split; try lia; exact H4.
Qed.

Lemma existsb_range (n x : Z) :
  existsb (Z.eqb x) (range n) = true <-> 0 <= x < n.
Proof.
  rewrite existsb_exists, <- in_range. split.
  - intros [y [Hy E]]. apply Z.eqb_eq in E. subst y. exact Hy.
  - intro H. exists x. split; [exact H | apply Z.eqb_refl].
Qed.

(** The body layer, pixel by pixel: the loop never raises; a painted pixel
    holds the body colour at the alpha of its depth, any other pixel is
    left transparent. *)
Lemma body_fill_layer (M : Float.model) (y_func : Z -> R) (edge_color : rgba)
    (br bg bb bloom_depth : Z) :
  exists layer,
    body_fill M y_func edge_color (br, bg, bb) bloom_depth = Some layer /\
    (forall x y,
        painted (fun x => py_int (y_func x))
          (body_alpha M (alpha edge_color) bloom_depth) bloom_depth x y ->
        layer x y =
        RGBA br bg bb
          (body_alpha M (alpha edge_color) bloom_depth (y - py_int (y_func x))))
    /\
    (forall x y,
        ~ painted (fun x => py_int (y_func x))
            (body_alpha M (alpha edge_color) bloom_depth) bloom_depth x y ->
        layer x y = transparent).
Proof.
  destruct (body_columns_spec M edge_color br bg bb bloom_depth y_func
              (range SIZE) (new_image transparent)
              (fun x H => proj1 (in_range SIZE x) H))
    as [layer [Hrun Hpx]].
  exists layer. split; [exact Hrun |]. split; intros x y Hp.
  - rewrite Hpx. destruct Hp as (Hx & Hy & Hd & Ha & Hup).
    replace (existsb (Z.eqb x) (range SIZE)) with true
      by (symmetry; apply existsb_range; exact Hx).
    replace (written _ _ _ _) with true; [reflexivity |].
    symmetry. apply written_range. repeat split; try lia; exact Hup.
  - rewrite Hpx.
    destruct (existsb (Z.eqb x) (range SIZE)) eqn:Ex; [| reflexivity].
    destruct (written _ _ _ _) eqn:Ew; [| reflexivity].
    exfalso. apply Hp. apply existsb_range in Ex.
    apply written_range in Ew. destruct Ew as (H1 & H2 & H3 & H4).
    unfold painted. repeat split; try lia; exact H4.
Qed.

Lemma body_fill_total (M : Float.model) (y_func : Z -> R) (edge_color : rgba)
    (body_color : Z * Z * Z) (bloom_depth : Z) :
  exists layer, body_fill M y_func edge_color body_color bloom_depth = Some layer.
Proof.
  destruct body_color as [[br bg] bb].
  destruct (body_fill_layer M y_func edge_color br bg bb bloom_depth)
    as [layer [H _]].
  exists layer; exact H.
Qed.

(** ** The body-fill alpha *)


(** [exp(3.5) < 37], by [exp(-h) >= 1 - h] at [h = 7/128] and six
    squarings. *)
Lemma exp_7_2_upper : (exp (7 / 2) <= 3679 / 100)%R.
Proof.
  assert (H0 : (exp (7 / 128) <= 10579 / 10000)%R).
  { pose proof (exp_ineq1_le (- (7 / 128))) as H.
    rewrite exp_Ropp in H. pose proof (exp_pos (7 / 128)) as Hp.
    assert (Hq : (exp (7 / 128) * / exp (7 / 128) = 1)%R)
      by (apply Rinv_r; lra).
    nra. }
  assert (Hsq : forall h b b' : R,
             (0 <= b)%R -> (exp h <= b)%R -> (b * b <= b')%R ->
             (exp (h + h) <= b')%R).
  { intros h b b' Hb Hh Hbb. rewrite exp_plus.
    pose proof (exp_pos h). nra. }
  assert (H1 : (exp (7 / 64) <= 11192 / 10000)%R).
  { replace (7 / 64)%R with (7 / 128 + 7 / 128)%R by lra.
    apply (Hsq _ _ _ (Rlt_le _ _ (Rlt_le_trans _ _ _ (exp_pos _) H0)) H0); lra. }
  assert (H2 : (exp (7 / 32) <= 12527 / 10000)%R).
  { replace (7 / 32)%R with (7 / 64 + 7 / 64)%R by lra.
    apply (Hsq _ _ _ (Rlt_le _ _ (Rlt_le_trans _ _ _ (exp_pos _) H1)) H1); lra. }
  assert (H3 : (exp (7 / 16) <= 15693 / 10000)%R).
  { replace (7 / 16)%R with (7 / 32 + 7 / 32)%R by lra.
    apply (Hsq _ _ _ (Rlt_le _ _ (Rlt_le_trans _ _ _ (exp_pos _) H2)) H2); lra. }
  assert (H4 : (exp (7 / 8) <= 24628 / 10000)%R).
  { replace (7 / 8)%R with (7 / 16 + 7 / 16)%R by lra.
    apply (Hsq _ _ _ (Rlt_le _ _ (Rlt_le_trans _ _ _ (exp_pos _) H3)) H3); lra. }
  assert (H5 : (exp (7 / 4) <= 60654 / 10000)%R).
  { replace (7 / 4)%R with (7 / 8 + 7 / 8)%R by lra.
    apply (Hsq _ _ _ (Rlt_le _ _ (Rlt_le_trans _ _ _ (exp_pos _) H4)) H4); lra. }
  replace (7 / 2)%R with (7 / 4 + 7 / 4)%R by lra.
  apply (Hsq _ _ _ (Rlt_le _ _ (Rlt_le_trans _ _ _ (exp_pos _) H5)) H5); lra.
Qed.

Lemma exp_m7_2_lower : (1 / 37 <= exp (- (7 / 2)))%R.
Proof.
  rewrite exp_Ropp. pose proof exp_7_2_upper as H.
  pose proof (exp_pos (7 / 2)) as Hp.
  assert (Hq : (exp (7 / 2) * / exp (7 / 2) = 1)%R) by (apply Rinv_r; lra).
  assert (Hi : (0 < / exp (7 / 2))%R) by (apply Rinv_0_lt_compat; exact Hp).
  nra.
Qed.

(** An edge alpha of 140 or more keeps the body fill at alpha 2 or more
    down to the full bloom depth. *)
Lemma body_alpha_ge_2 (M : Float.model) (ea bloom_depth d : Z) :
  140 <= ea <= 255 -> 0 < bloom_depth -> 0 <= d <= bloom_depth ->
  2 <= body_alpha M ea bloom_depth d.
Proof.
  intros Hea Hdepth Hd. unfold body_alpha.
  apply py_int_lower; [lia |].
  unfold Float.mul, Float.div_int, Float.lit, Float.of_int.
  rewrite <- (FloatFacts.rnd_int M 2) by lia.
  apply Float.rnd_mono.
  rewrite (FloatFacts.rnd_int M ea) by lia.
  (* the literals *)
  assert (H35 : Float.rnd M (35 / 10) = (7 / 2)%R).
  { pose proof (Float.rnd_exact M 7 1 ltac:(lia) ltac:(lia)) as E.
    change (IZR (2 ^ 1)) with 2%R in E.
    replace (35 / 10)%R with (7 / 2)%R by lra. exact E. }
  assert (H06 : (19 / 32 <= Float.rnd M (6 / 10))%R).
  { pose proof (Float.rnd_exact M 19 5 ltac:(lia) ltac:(lia)) as E.
    change (IZR (2 ^ 5)) with 32%R in E. rewrite <- E.
    apply Float.rnd_mono. lra. }
  rewrite H35.
  (* t = dy / bloom_depth lies in [0, 1] *)
  assert (HD : (0 < IZR bloom_depth)%R) by (apply IZR_lt; exact Hdepth).
  assert (Hq : (0 <= IZR d / IZR bloom_depth <= 1)%R).
  { assert (H1 : (0 <= IZR d)%R) by (apply IZR_le; lia).
    assert (H2 : (IZR d <= IZR bloom_depth)%R) by (apply IZR_le; lia).
    split.
    - apply Rmult_le_pos; [exact H1 | left; apply Rinv_0_lt_compat; exact HD].
    - apply Rmult_le_reg_r with (IZR bloom_depth); [exact HD |].
      unfold Rdiv. rewrite Rmult_assoc, Rinv_l by lra. lra. }
  assert (Ht : (IZR 0 <= Float.rnd M (IZR d / IZR bloom_depth) <= IZR 1)%R)
    by (apply FloatFacts.rnd_between; [lia | lia | exact Hq]).
  set (t := Float.rnd M (IZR d / IZR bloom_depth)) in *.
  (* the exponent lies in [-3.5, 0] *)
  assert (Hu : (- (7 / 2) <= Float.rnd M (- (7 / 2) * t) <= 0)%R).
  { split.
    - pose proof (Float.rnd_exact M (-7) 1 ltac:(lia) ltac:(lia)) as E.
      change (IZR (2 ^ 1)) with 2%R in E.
      replace (- (7 / 2))%R with (-7 / 2)%R by lra.
      rewrite <- E at 1. apply Float.rnd_mono. lra.
    - rewrite <- (FloatFacts.rnd_int M 0) by lia.
      apply Float.rnd_mono. lra. }
  set (u := Float.rnd M (- (7 / 2) * t)) in *.
  (* the exponential is at least 0.999 * exp(-3.5) *)
  assert (He : (999 / 1000 * (1 / 37) <= Float.fexp M u)%R).
  { apply Rle_trans with (Float.fexp M (- (7 / 2))).
    - pose proof (Float.fexp_acc M (- (7 / 2)) ltac:(lra)) as Hacc.
      pose proof exp_m7_2_lower as Hlow.
      pose proof (Rle_abs (- (Float.fexp M (- (7 / 2)) - exp (- (7 / 2)))))
        as Habs.
      rewrite Rabs_Ropp in Habs. lra.
    - apply Float.fexp_mono. lra. }
  (* the rounded product edge_alpha * 0.6 is at least 83 *)
  assert (HA : (83 <= Float.rnd M (IZR ea * Float.rnd M (6 / 10)))%R).
  { rewrite <- (FloatFacts.rnd_int M 83) by lia.
    apply Float.rnd_mono.
    assert (H140 : (140 <= IZR ea)%R) by (apply IZR_le; lia).
    nra. }
  nra.
Qed.

Lemma body_alpha_exact (ea bloom_depth d : Z) :
  body_alpha Float.exact ea bloom_depth d
  = py_int (IZR ea * (6 / 10)
            * exp (- (35 / 10) * (IZR d / IZR bloom_depth)))%R.
Proof. reflexivity. Qed.

Lemma waves_edge_depth (M : Float.model) (w : wave) :
  In w (waves M) -> 140 <= alpha (edge w) <= 255 /\ 0 < depth w.
Proof.
  unfold waves. simpl.
  intros [H | [H | [H | [H | [H | []]]]]]; subst w; simpl; lia.
Qed.

Lemma painted_dec (wy : Z -> Z) (al : Z -> Z) (bloom_depth x y : Z) :
  painted wy al bloom_depth x y \/ ~ painted wy al bloom_depth x y.
Proof.
  destruct (existsb (Z.eqb x) (range SIZE)
            && written (wy x) al (range bloom_depth) (y - wy x)) eqn:E.
  - left. apply andb_true_iff in E. destruct E as [E1 E2].
    apply existsb_range in E1. apply written_range in E2.
    destruct E2 as (H1 & H2 & H3 & H4).
    unfold painted. repeat split; try lia; exact H4.
  - right. intros (H1 & H2 & H3 & H4 & H5).
    apply andb_false_iff in E. destruct E as [E | E].
    + assert (T : existsb (Z.eqb x) (range SIZE) = true)
        by (apply existsb_range; exact H1).
      congruence.
    + assert (T : written (wy x) al (range bloom_depth) (y - wy x) = true).
      { apply written_range. repeat split; try lia; exact H5. }
      congruence.
Qed.




(** ** Control flow of the body fill *)

(** C6: in the loop over the depths of a column, a sample [y = wy + dy]
    off the canvas is skipped (the loop goes on with the next depth and the
    pixels as they were), an alpha below 1 ends the column (the pixels are
    returned as they are, whatever depths remain), and a visible alpha on
    the canvas is written at an in-bounds coordinate; so the whole body
    fill never raises on a write, paints nothing off the canvas, and in a
    column paints nothing at or below a depth whose alpha was computed
    below 1. *)
Theorem C6_body_fill_skip_break_in_bounds (M : Float.model) (y_func : Z -> R)
    (edge_color : rgba) (br bg bb bloom_depth : Z) :
  (forall x wy dy rest px,
      wy + dy < 0 \/ SIZE <= wy + dy ->
      for_loop (dy :: rest)
        (body_fill_dy M edge_color (br, bg, bb) bloom_depth x wy) px
      = for_loop rest
          (body_fill_dy M edge_color (br, bg, bb) bloom_depth x wy) px)
  /\ (forall x wy dy rest px,
      0 <= wy + dy < SIZE ->
      body_alpha M (alpha edge_color) bloom_depth dy < 1 ->
      for_loop (dy :: rest)
        (body_fill_dy M edge_color (br, bg, bb) bloom_depth x wy) px
      = Some px)
  /\ (forall x wy dy rest px,
      0 <= x < SIZE -> 0 <= wy + dy < SIZE ->
      1 <= body_alpha M (alpha edge_color) bloom_depth dy ->
      exists px',
        putpixel px x (wy + dy)
          (RGBA br bg bb (body_alpha M (alpha edge_color) bloom_depth dy))
        = Some px' /\
        in_bounds x (wy + dy) = true /\
        for_loop (dy :: rest)
          (body_fill_dy M edge_color (br, bg, bb) bloom_depth x wy) px
        = for_loop rest
            (body_fill_dy M edge_color (br, bg, bb) bloom_depth x wy) px')
  /\ (exists layer,
      body_fill M y_func edge_color (br, bg, bb) bloom_depth = Some layer /\
      (forall x y, in_bounds x y = false -> layer x y = transparent) /\
      (forall x d0 d,
          0 <= d0 <= d -> 0 <= py_int (y_func x) + d0 < SIZE ->
          body_alpha M (alpha edge_color) bloom_depth d0 < 1 ->
          layer x (py_int (y_func x) + d) = transparent)).
Proof.
  split; [| split; [| split]].
  - intros x wy dy rest px Hoob. simpl. unfold body_fill_dy at 1.
    replace ((wy + dy <? 0) || (wy + dy >=? SIZE)) with true; [reflexivity |].
    symmetry. apply orb_true_iff. rewrite Z.ltb_lt, Z.geb_leb, Z.leb_le. lia.
  - intros x wy dy rest px Hin Ha. simpl. unfold body_fill_dy at 1.
    replace ((wy + dy <? 0) || (wy + dy >=? SIZE)) with false
      by (symmetry; apply oob_iff; exact Hin).
    replace (_ <? 1) with true by (symmetry; apply Z.ltb_lt; exact Ha).
    reflexivity.
  - intros x wy dy rest px Hx Hin Ha.
    assert (Hb : in_bounds x (wy + dy) = true) by (apply in_bounds_iff; lia).
    eexists. split; [apply putpixel_in_bounds; exact Hb |].
    split; [exact Hb |].
    simpl. unfold body_fill_dy at 1.
    replace ((wy + dy <? 0) || (wy + dy >=? SIZE)) with false
      by (symmetry; apply oob_iff; exact Hin).
    replace (_ <? 1) with false by (symmetry; apply Z.ltb_ge; exact Ha).
    rewrite putpixel_in_bounds by exact Hb. reflexivity.
  - destruct (body_fill_layer M y_func edge_color br bg bb bloom_depth)
      as [layer (Hrun & Hin & Hout)].
    exists layer. split; [exact Hrun |]. split.
    + intros x y Hb. apply Hout. intros (H1 & H2 & _).
      assert (T : in_bounds x y = true) by (apply in_bounds_iff; lia).
      congruence.
    + intros x d0 d Hd Hy Ha. apply Hout. intros (_ & _ & H3 & H4 & H5).
      replace (py_int (y_func x) + d - py_int (y_func x)) with d in *
        by lia.
      destruct (Z.eq_dec d0 d) as [-> | Hne]; [lia |].
      specialize (H5 d0 ltac:(lia) Hy). lia.
Qed.

(** ** The early exit is dead code for the script's waves *)

(** C10: for each of the five wave descriptors the body-fill alpha is at
    least 2 at every depth of [range(bloom_depth)], so the early exit is
    never taken, and the body fill equals the loop without the early exit
    that visits the whole depth range. *)
Theorem C10_early_exit_never_taken (M : Float.model) (w : wave)
    (y_func : Z -> R) :
  In w (waves M) ->
  (forall d, 0 <= d < depth w ->
             2 <= body_alpha M (alpha (edge w)) (depth w) d)
  /\ body_fill M y_func (edge w) (body w) (depth w)
     = full_body_fill M y_func (edge w) (body w) (depth w).
Proof.
  intro Hw. destruct (waves_edge_depth M w Hw) as [Hea Hdepth].
  assert (Hge : forall d, 0 <= d < depth w ->
                          2 <= body_alpha M (alpha (edge w)) (depth w) d).
  { intros d Hd. apply body_alpha_ge_2; lia. }
  split; [exact Hge |].
  unfold body_fill, full_body_fill.
  apply for_loop_ext. intros x px _. unfold body_fill_x. f_equal.
  apply for_loop_ext. intros dy px' Hdy. apply in_range in Hdy.
  unfold body_fill_dy, full_body_fill_dy.
  destruct (body w) as [[br bg] bb].
  destruct ((py_int (y_func x) + dy <? 0) || (py_int (y_func x) + dy >=? SIZE));
    [reflexivity |].
  replace (_ <? 1) with false; [reflexivity |].
  symmetry. apply Z.ltb_ge. specialize (Hge dy Hdy). lia.
Qed.

(** The first wave, in exact arithmetic. *)
Lemma C10_witness :
  In first_wave (waves Float.exact) /\
  body_fill Float.exact (y_func_of Float.exact first_wave)
    (RGBA 100 190 235 140) (25, 60, 100) 200
  = full_body_fill Float.exact (y_func_of Float.exact first_wave)
      (RGBA 100 190 235 140) (25, 60, 100) 200.
Proof.
  split; [left; reflexivity |].
  exact (proj2 (C10_early_exit_never_taken Float.exact first_wave
                  (y_func_of Float.exact first_wave) (or_introl eq_refl))).
Defined.

(** ** The background *)

(** The loop over the columns of row [y] (lines 103-104). *)
Lemma row_loop_spec {A : Type} (y : Z) (v : A) (xs : list Z) (c : image A) :
  0 <= y < SIZE -> (forall x, In x xs -> 0 <= x < SIZE) ->
  exists c',
    for_loop xs (fun x content => next (putpixel content x y v)) c = Some c'
    /\ forall x' y',
        c' x' y' =
        if existsb (Z.eqb x') xs && (y' =? y) then v else c x' y'.
Proof.
  intro Hy. revert c. induction xs as [| x xs IH]; intros c Hxs.
  - exists c. split; reflexivity.
  - simpl for_loop.
    rewrite putpixel_in_bounds
      by (apply in_bounds_iff; split; [apply Hxs; left; reflexivity | exact Hy]).
    simpl.
    destruct (IH (fun x' y' => if (x' =? x) && (y' =? y) then v else c x' y')
                (fun x0 H0 => Hxs x0 (or_intror H0))) as [c' [Hrun Hc']].
    exists c'. split; [exact Hrun |]. intros x' y'. rewrite Hc'. simpl existsb.
    destruct (x' =? x), (existsb (Z.eqb x') xs), (y' =? y); reflexivity.
Qed.

(** The loop over the rows [ys] (lines 98-104). *)
Lemma rows_loop_spec (M : Float.model) (ys : list Z) (c : image rgba) :
  (forall y, In y ys -> 0 <= y < SIZE) ->
  exists c',
    for_loop ys (background_row M) c = Some c' /\
    forall x' y',
      c' x' y' =
      if existsb (Z.eqb x') (range SIZE) && existsb (Z.eqb y') ys
      then background_color M y' else c x' y'.
Proof.
  revert c. induction ys as [| y ys IH]; intros c Hys.
  - exists c. split; [reflexivity |]. intros x' y'. simpl.
    rewrite andb_false_r. reflexivity.
  - simpl for_loop. unfold background_row at 1.
    destruct (row_loop_spec y (background_color M y) (range SIZE) c
                (Hys y (or_introl eq_refl))
                (fun x H => proj1 (in_range SIZE x) H)) as [c1 [Hrun1 Hc1]].
    rewrite Hrun1. change (next (Some c1)) with (Some (Next, c1)).
    cbv beta iota.
    destruct (IH c1 (fun y0 H0 => Hys y0 (or_intror H0))) as [c' [Hrun Hc']].
    exists c'. split; [exact Hrun |]. intros x' y'.
    rewrite Hc', Hc1.
    change (existsb (Z.eqb y') (y :: ys))
      with ((y' =? y) || existsb (Z.eqb y') ys).
    destruct (existsb (Z.eqb x') (range SIZE)); [| reflexivity].
    rewrite !andb_true_l.
    destruct (existsb (Z.eqb y') ys).
    + rewrite orb_true_r. reflexivity.
    + rewrite orb_false_r. destruct (y' =? y) eqn:E; [| reflexivity].
      apply Z.eqb_eq in E. subst y'. reflexivity.
Qed.

Lemma paint_background_spec (M : Float.model) :
  exists content,
    paint_background M = Some content /\
    forall x y, 0 <= x < SIZE -> 0 <= y < SIZE ->
                content x y = background_color M y.
Proof.
  destruct (rows_loop_spec M (range SIZE) (new_image transparent)
              (fun y H => proj1 (in_range SIZE y) H)) as [c [Hrun Hc]].
  exists c. split; [exact Hrun |]. intros x y Hx Hy. rewrite Hc.
  replace (existsb (Z.eqb x) (range SIZE)) with true
    by (symmetry; apply existsb_range; exact Hx).
  replace (existsb (Z.eqb y) (range SIZE)) with true
    by (symmetry; apply existsb_range; exact Hy).
  reflexivity.
Qed.

(** On the rows of the canvas the colour arithmetic is exact: [y / 1024],
    its multiples by 8 and 18 and the sums are all doubles. *)
Lemma rnd_1024 (M : Float.model) (m : Z) (x : R) :
  Z.abs m <= 2 ^ 53 -> x = (IZR m / 1024)%R -> Float.rnd M x = x.
Proof.
  intros Hm ->. pose proof (Float.rnd_exact M m 10 Hm ltac:(lia)) as E.
  change (IZR (2 ^ 10)) with 1024%R in E. exact E.
Qed.

Lemma background_color_exact (M : Float.model) (y : Z) :
  0 <= y < SIZE ->
  background_color M y
  = RGBA (py_int (5 + 8 * (IZR y / IZR SIZE)))
         (py_int (5 + 8 * (IZR y / IZR SIZE)))
         (py_int (12 + 18 * (IZR y / IZR SIZE))) 255.
Proof.
  intro Hy. unfold SIZE in Hy.
  unfold background_color, Float.add, Float.mul, Float.div_int, Float.of_int.
  change (IZR SIZE) with 1024%R.
  rewrite !FloatFacts.rnd_int by lia.
  rewrite (rnd_1024 M y (IZR y / 1024)) by (lia || reflexivity).
  rewrite (rnd_1024 M (8 * y) (IZR y / 1024 * 8))
    by (lia || (rewrite mult_IZR; lra)).
  rewrite (rnd_1024 M (18 * y) (IZR y / 1024 * 18))
    by (lia || (rewrite mult_IZR; lra)).
  rewrite (rnd_1024 M (5 * 1024 + 8 * y) (5 + IZR y / 1024 * 8))
    by (lia || (rewrite plus_IZR, !mult_IZR; lra)).
  rewrite (rnd_1024 M (12 * 1024 + 18 * y) (12 + IZR y / 1024 * 18))
    by (lia || (rewrite plus_IZR, !mult_IZR; lra)).
  f_equal; f_equal; lra.
Qed.

(** The same colour in integer arithmetic. *)
Lemma py_int_affine (a b y : Z) :
  0 <= a -> 0 <= b -> 0 <= y ->
  py_int (IZR a + IZR b * (IZR y / 1024)) = a + b * y / 1024.
Proof.
  intros Ha Hb Hy. unfold py_int.
  assert (H0 : (0 <= IZR y)%R) by (apply IZR_le; exact Hy).
  assert (H1 : (0 <= IZR a)%R) by (apply IZR_le; exact Ha).
  assert (H2 : (0 <= IZR b)%R) by (apply IZR_le; exact Hb).
  destruct (Rle_dec 0 (IZR a + IZR b * (IZR y / 1024))) as [_ | Hn];
    [| exfalso; apply Hn; nra].
  apply Zfloor_eq.
  pose proof (Z.div_mod (b * y) 1024 ltac:(lia)) as Hdm.
  pose proof (Z.mod_pos_bound (b * y) 1024 ltac:(lia)) as Hr.
  set (q := b * y / 1024) in *. set (r := (b * y) mod 1024) in *.
  assert (E : (IZR b * IZR y = 1024 * IZR q + IZR r)%R).
  { rewrite <- mult_IZR, Hdm, plus_IZR, mult_IZR. reflexivity. }
  assert (Hr0 : (0 <= IZR r)%R) by (apply IZR_le; lia).
  assert (Hr1 : (IZR r <= 1023)%R) by (apply IZR_le; lia).
  rewrite plus_IZR. lra.
Qed.

(** C5: the background painter succeeds, and at every pixel [(x, y)] of the
    canvas leaves the opaque colour whose channels are
    [int(5 + 8 t)], [int(5 + 8 t)], [int(12 + 18 t)] for [t = y / 1024],
    that is [5 + 8 y / 1024], [5 + 8 y / 1024] and [12 + 18 y / 1024] in
    integer division; the colour is the same in every column of a row. *)
Theorem C5_background_gradient (M : Float.model) :
  exists content,
    paint_background M = Some content /\
    forall x y, 0 <= x < SIZE -> 0 <= y < SIZE ->
      content x y
      = RGBA (py_int (5 + 8 * (IZR y / IZR SIZE)))
             (py_int (5 + 8 * (IZR y / IZR SIZE)))
             (py_int (12 + 18 * (IZR y / IZR SIZE))) 255
      /\ content x y
         = RGBA (5 + 8 * y / 1024) (5 + 8 * y / 1024) (12 + 18 * y / 1024) 255
      /\ forall x', 0 <= x' < SIZE -> content x' y = content x y.
Proof.
  destruct (paint_background_spec M) as [content [Hrun Hc]].
  exists content. split; [exact Hrun |]. intros x y Hx Hy.
  rewrite (Hc x y Hx Hy). split; [| split].
  - apply background_color_exact; exact Hy.
  - rewrite (background_color_exact M y Hy).
    change (IZR SIZE) with 1024%R.
    rewrite (py_int_affine 5 8 y), (py_int_affine 12 18 y) by lia.
    reflexivity.
  - intros x' Hx'. apply Hc; assumption.
Qed.

(** ** The rounded-rectangle mask *)

Lemma in_box_false_iff (x0 y0 x1 y1 x y : Z) :
  in_box (x0, y0, x1, y1) x y = false <->
  (x < x0 \/ x1 < x \/ y < y0 \/ y1 < y).
Proof.
  unfold in_box. rewrite !andb_false_iff, !Z.leb_gt. lia.
Qed.

Lemma in_box_true_iff (x0 y0 x1 y1 x y : Z) :
  in_box (x0, y0, x1, y1) x y = true <->
  (x0 <= x <= x1 /\ y0 <= y <= y1).
Proof.
  unfold in_box. rewrite !andb_true_iff, !Z.leb_le. lia.
Qed.

Lemma pieslice_keeps_fill (B : Imaging.backend) (img : image Z) (b : box)
    (s e fill x y : Z) :
  img x y = fill -> Imaging.pieslice B img b s e fill x y = fill.
Proof.
  intro H. destruct (Imaging.pieslice_paints_fill B img b s e fill x y)
    as [E | E]; rewrite E; [exact H | reflexivity].
Qed.

(** Nothing is drawn outside the margin box. *)
Lemma mask_outside (B : Imaging.backend) (x y : Z) :
  in_box (MARGIN, MARGIN, SIZE - MARGIN, SIZE - MARGIN) x y = false ->
  build_mask B x y = 0.
Proof.
  intro H. apply in_box_false_iff in H. unfold MARGIN, SIZE in H.
  unfold build_mask, rounded_rect, MARGIN, SIZE, CORNER.
  rewrite !Imaging.pieslice_in_box by (apply in_box_false_iff; lia).
  unfold rectangle.
  replace (in_box _ x y) with false by (symmetry; apply in_box_false_iff; lia).
  replace (in_box _ x y) with false by (symmetry; apply in_box_false_iff; lia).
  reflexivity.
Qed.

(** The vertical bar of the cross is filled. *)
Lemma mask_vertical_bar (B : Imaging.backend) (x y : Z) :
  MARGIN + CORNER <= x <= SIZE - MARGIN - CORNER ->
  MARGIN <= y <= SIZE - MARGIN ->
  build_mask B x y = 255.
Proof.
  unfold MARGIN, SIZE, CORNER. intros Hx Hy.
  unfold build_mask, rounded_rect, MARGIN, SIZE, CORNER.
  repeat apply pieslice_keeps_fill.
  unfold rectangle at 1.
  destruct (in_box _ x y); [reflexivity |].
  unfold rectangle.
  replace (in_box _ x y) with true; [reflexivity |].
  symmetry. apply in_box_true_iff. lia.
Qed.

(** The mask holds no value but 0 and 255. *)
Lemma mask_values (B : Imaging.backend) (x y : Z) :
  build_mask B x y = 0 \/ build_mask B x y = 255.
Proof.
  unfold build_mask, rounded_rect.
  repeat match goal with
         | |- context [Imaging.pieslice B ?img ?b ?s ?e 255 x y] =>
             destruct (Imaging.pieslice_paints_fill B img b s e 255 x y)
               as [-> | ->]; [| right; reflexivity]
         end.
  unfold rectangle.
  repeat match goal with
         | |- context [if ?c then _ else _] =>
             destruct c; [right; reflexivity |]
         end.
  left; reflexivity.
Qed.

(** C3: between the two corner arcs the mask is opaque on the row
    [y = MARGIN] and transparent on every row above it, in particular on
    [y = MARGIN - 1]; it is opaque at the centre of the canvas and
    transparent at its four corner pixels. *)
Theorem C3_mask_top_edge_center_corners (B : Imaging.backend) :
  (forall x, MARGIN + CORNER <= x <= SIZE - MARGIN - CORNER ->
      build_mask B x MARGIN = 255 /\
      build_mask B x (MARGIN - 1) = 0 /\
      forall y, y < MARGIN -> build_mask B x y = 0)
  /\ build_mask B 512 512 = 255
  /\ build_mask B 0 0 = 0
  /\ build_mask B 1023 0 = 0
  /\ build_mask B 0 1023 = 0
  /\ build_mask B 1023 1023 = 0.
Proof.
  split; [| split; [| repeat split]].
  - intros x Hx. split; [| split].
    + apply mask_vertical_bar; [exact Hx | unfold MARGIN, SIZE; lia].
    + apply mask_outside. apply in_box_false_iff. unfold MARGIN; lia.
    + intros y Hy. apply mask_outside. apply in_box_false_iff. lia.
  - apply mask_vertical_bar; unfold MARGIN, SIZE, CORNER; lia.
  - apply mask_outside; reflexivity.
  - apply mask_outside; reflexivity.
  - apply mask_outside; reflexivity.
  - apply mask_outside; reflexivity.
Qed.

(** ** Alpha-over on pixels *)

Lemma shiftfordiv255_alpha (a : Z) :
  0 <= a <= 255 -> shiftfordiv255 (a * 255 + 128) = a.
Proof.
  intro H. unfold shiftfordiv255. rewrite !Z.shiftr_div_pow2 by lia.
  change (2 ^ 8) with 256. Z.div_mod_to_equations. lia.
Qed.

Lemma chan_opaque (s : Z) :
  0 <= s <= 255 ->
  Z.shiftr (shiftfordiv255 (s * 32640 + 16384)) 7 = s.
Proof.
  intro H. unfold shiftfordiv255. rewrite !Z.shiftr_div_pow2 by lia.
  change (2 ^ 8) with 256. change (2 ^ 7) with 128.
  Z.div_mod_to_equations. lia.
Qed.

(** A transparent source pixel leaves the destination as it is. *)
Lemma over_transparent_src (dst src : rgba) :
  alpha src = 0 -> alpha_composite_px dst src = dst.
Proof. intro H. unfold alpha_composite_px. rewrite H. reflexivity. Qed.

(** Over a destination of alpha 0 the result has the source's alpha. *)
Lemma over_alpha_on_clear (dst src : rgba) :
  alpha dst = 0 -> 0 <= alpha src <= 255 ->
  alpha (alpha_composite_px dst src) = alpha src.
Proof.
  intros Hd Hs. unfold alpha_composite_px.
  destruct (alpha src =? 0) eqn:E.
  - apply Z.eqb_eq in E. congruence.
  - cbv beta zeta. unfold alpha at 1. rewrite Hd.
    unfold u32, u8. rewrite Z.mul_0_l.
    rewrite (Z.mod_small 0) by lia. rewrite Z.add_0_r.
    rewrite (Z.mod_small (alpha src * 255)) by lia.
    rewrite (Z.mod_small (alpha src * 255 + 128)) by lia.
    rewrite shiftfordiv255_alpha by exact Hs.
    apply Z.mod_small. lia.
Qed.

(** An opaque source pixel replaces the destination. *)
Lemma over_opaque_src (dst src : rgba) :
  alpha src = 255 ->
  0 <= red src <= 255 -> 0 <= green src <= 255 -> 0 <= blue src <= 255 ->
  alpha_composite_px dst src = src.
Proof.
  destruct src as [r g b a]. simpl. intros -> Hr Hg Hb.
  unfold alpha_composite_px. cbn [alpha red green blue].
  change (255 =? 0) with false. cbv beta iota zeta.
  rewrite Z.sub_diag, Z.mul_0_r.
  change (u32 0) with 0.
  change (u32 (255 * 255 + 0)) with 65025.
  change (u32 (255 * 255 * 255 * Z.shiftl 1 PRECISION_BITS) / 65025)
    with 32640.
  change (u32 (255 * Z.shiftl 1 PRECISION_BITS - 32640)) with 0.
  change (Z.shiftl 128 PRECISION_BITS) with 16384.
  change (u8 (shiftfordiv255 (u32 (65025 + 128)))) with 255.
  rewrite !Z.mul_0_r, !Z.add_0_r.
  assert (Hc : forall s, 0 <= s <= 255 ->
             u8 (Z.shiftr
                   (shiftfordiv255 (u32 (u32 (s * 32640) + 16384)))
                   PRECISION_BITS) = s).
  { intros s Hs. unfold u32, u8.
    rewrite (Z.mod_small (s * 32640)) by lia.
    rewrite (Z.mod_small (s * 32640 + 16384)) by lia.
    change PRECISION_BITS with 7. rewrite chan_opaque by exact Hs.
    apply Z.mod_small. lia. }
  rewrite !Hc by assumption. reflexivity.
Qed.

(** ** One wave, then all of them *)

Lemma draw_glass_wave_layers (B : Imaging.backend) (M : Float.model)
    (img : image rgba) (y_func : Z -> R) (edge_color : rgba)
    (body_color : Z * Z * Z) (bloom_depth bloom_blur : Z) :
  exists body_layer,
    body_fill M y_func edge_color body_color bloom_depth = Some body_layer /\
    draw_glass_wave B M img y_func edge_color body_color bloom_depth
      bloom_blur
    = Some
        (alpha_composite
           (alpha_composite
              (alpha_composite img body_layer)
              (Imaging.gaussian_blur B bloom_blur
                 (edge_line B y_func edge_color)))
           (edge_line B y_func edge_color)).
Proof.
  destruct (body_fill_total M y_func edge_color body_color bloom_depth)
    as [body_layer Hbody].
  exists body_layer. split; [exact Hbody |].
  unfold draw_glass_wave. rewrite Hbody. reflexivity.
Qed.

Lemma composite_layers_app (canvas : image rgba) (l1 l2 : list (image rgba)) :
  composite_layers canvas (l1 ++ l2)
  = composite_layers (composite_layers canvas l1) l2.
Proof. unfold composite_layers. apply fold_left_app. Qed.

Lemma render_waves_layers (B : Imaging.backend) (M : Float.model)
    (ws : list wave) (content : image rgba) :
  exists layers,
    all_layers B M ws = Some layers /\
    List.length layers = (3 * List.length ws)%nat /\
    render_waves B M ws content = Some (composite_layers content layers).
Proof.
  revert content. induction ws as [| w ws IH]; intro content.
  - exists []. repeat split.
  - destruct (draw_glass_wave_layers B M content (y_func_of M w) (edge w)
                (body w) (depth w) (blur w)) as [body_layer [Hbody Hdraw]].
    set (c1 := alpha_composite _ (edge_line B (y_func_of M w) (edge w)))
      in Hdraw.
    destruct (IH c1) as [rest (Hrest & Hlen & Hrun)].
    exists ([body_layer;
             Imaging.gaussian_blur B (blur w)
               (edge_line B (y_func_of M w) (edge w));
             edge_line B (y_func_of M w) (edge w)] ++ rest).
    split; [| split].
    + cbn [all_layers]. unfold wave_layers. rewrite Hbody.
      unfold bind at 1 2. rewrite Hrest. reflexivity.
    + rewrite length_app, Hlen. cbn [List.length]. lia.
    + unfold render_waves in *. cbn [for_loop]. unfold wave_step at 1.
      rewrite Hdraw. unfold next, bind. rewrite Hrun.
      rewrite composite_layers_app. reflexivity.
Qed.

Lemma main_image_layers (B : Imaging.backend) (M : Float.model) :
  exists background layers,
    paint_background M = Some background /\
    all_layers B M (waves M) = Some layers /\
    List.length layers = 15%nat /\
    main_image B M
    = Some
        (alpha_composite (new_image transparent)
           (putalpha (composite_layers background layers) (build_mask B))).
Proof.
  destruct (paint_background_spec M) as [background [Hpaint _]].
  destruct (render_waves_layers B M (waves M) background)
    as [layers (Hall & Hlen & Hrun)].
  exists background, layers.
  split; [exact Hpaint |]. split; [exact Hall |]. split.
  - rewrite Hlen. reflexivity.
  - unfold main_image. rewrite Hpaint. unfold bind at 1.
    rewrite Hrun. reflexivity.
Qed.

(** ** Clipping *)

(** C9: the run produces an image whose alpha at every pixel is the value
    of the rounded-rectangle mask there, which is either 0 or 255; the
    same holds whatever canvas the mask is put on, since the alpha band is
    replaced by the mask and compositing over a fully transparent base
    keeps the source alpha. *)
Theorem C9_final_alpha_is_mask (B : Imaging.backend) (M : Float.model) :
  (exists img,
      main_image B M = Some img /\
      forall x y,
        alpha (img x y) = build_mask B x y /\
        (build_mask B x y = 0 \/ build_mask B x y = 255))
  /\ (forall (content : image rgba) x y,
        alpha (alpha_composite (new_image transparent)
                 (putalpha content (build_mask B)) x y)
        = build_mask B x y).
Proof.
  assert (Hany : forall (content : image rgba) x y,
             alpha (alpha_composite (new_image transparent)
                      (putalpha content (build_mask B)) x y)
             = build_mask B x y).
  { intros content x y. unfold alpha_composite, putalpha, new_image.
    rewrite over_alpha_on_clear; [reflexivity | reflexivity |].
    cbn [alpha]. destruct (mask_values B x y) as [-> | ->]; lia. }
  split; [| exact Hany].
  destruct (main_image_layers B M)
    as [background [layers (_ & _ & _ & Hmain)]].
  eexists. split; [exact Hmain |]. intros x y.
  split; [apply Hany | apply mask_values].
Qed.

(** ** The order of the layers *)


(** ** The order of the waves *)










(** * Further properties of the script's functions *)

(** ** [rounded_rect] on any box *)

(** With a radius that fits the box ([0 <= radius], [2 * radius] at most
    the width and the height), [rounded_rect] leaves every pixel outside
    the box [xy] as it was. *)
Theorem rounded_rect_outside_box (B : Imaging.backend) (img : image Z)
    (x0 y0 x1 y1 radius fill x y : Z) :
  0 <= radius -> x0 + 2 * radius <= x1 -> y0 + 2 * radius <= y1 ->
  in_box (x0, y0, x1, y1) x y = false ->
  rounded_rect B img (x0, y0, x1, y1) radius fill x y = img x y.
Proof.
  intros Hr Hw Hh Hout. apply in_box_false_iff in Hout.
  unfold rounded_rect.
  rewrite !Imaging.pieslice_in_box by (apply in_box_false_iff; lia).
  unfold rectangle.
  replace (in_box _ x y) with false by (symmetry; apply in_box_false_iff; lia).
  replace (in_box _ x y) with false by (symmetry; apply in_box_false_iff; lia).
  reflexivity.
Qed.

(** A box of width and height 10 with radius 3: the pixel left of it. *)
Lemma rounded_rect_outside_box_witness :
  in_box (2, 2, 12, 12) 1 5 = false /\
  rounded_rect Imaging.plain (new_image 0) (2, 2, 12, 12) 3 255 1 5 = 0.
Proof.
  split; [reflexivity |].
  exact (rounded_rect_outside_box Imaging.plain (new_image 0)
           2 2 12 12 3 255 1 5
           ltac:(lia) ltac:(lia) ltac:(lia) eq_refl).
Defined.

(** With a radius that fits the box and an 8-bit fill value, every pixel
    of the two bars of the cross (the box narrowed by the radius on the
    left and right, and the box narrowed by it at the top and bottom) ends
    up with the fill value, whatever the corner slices draw afterwards. *)
Theorem rounded_rect_cross_filled (B : Imaging.backend) (img : image Z)
    (x0 y0 x1 y1 radius fill x y : Z) :
  0 <= radius -> x0 + 2 * radius <= x1 -> y0 + 2 * radius <= y1 ->
  0 <= fill <= 255 ->
  in_box (x0 + radius, y0, x1 - radius, y1) x y = true \/
  in_box (x0, y0 + radius, x1, y1 - radius) x y = true ->
  rounded_rect B img (x0, y0, x1, y1) radius fill x y = fill.
Proof.
  intros _ _ _ _ H. unfold rounded_rect.
  repeat apply pieslice_keeps_fill.
  unfold rectangle.
  destruct H as [H | H]; rewrite H; [| reflexivity].
  destruct (in_box (x0, y0 + radius, x1, y1 - radius) x y); reflexivity.
Qed.

(** The same box: a pixel of the horizontal bar, at the left edge. *)
Lemma rounded_rect_cross_filled_witness :
  0 <= 3 /\ 2 + 2 * 3 <= 12 /\ 0 <= 255 <= 255 /\
  in_box (2, 2 + 3, 12, 12 - 3) 2 7 = true /\
  rounded_rect Imaging.plain (new_image 0) (2, 2, 12, 12) 3 255 2 7 = 255.
Proof.
  split; [lia |]. split; [lia |]. split; [lia |]. split; [reflexivity |].
  exact (rounded_rect_cross_filled Imaging.plain (new_image 0)
           2 2 12 12 3 255 2 7
           ltac:(lia) ltac:(lia) ltac:(lia) ltac:(lia) (or_intror eq_refl)).
Defined.

(** With a radius that fits the box and an 8-bit fill value,
    [rounded_rect] introduces no value but the fill: every pixel of the
    result is the pixel it was or the fill value. *)
Theorem rounded_rect_two_valued (B : Imaging.backend) (img : image Z)
    (x0 y0 x1 y1 radius fill x y : Z) :
  0 <= radius -> x0 + 2 * radius <= x1 -> y0 + 2 * radius <= y1 ->
  0 <= fill <= 255 ->
  rounded_rect B img (x0, y0, x1, y1) radius fill x y = img x y \/
  rounded_rect B img (x0, y0, x1, y1) radius fill x y = fill.
Proof.
  intros _ _ _ _. unfold rounded_rect.
  repeat match goal with
         | |- context [Imaging.pieslice B ?i ?b ?s ?e fill x y] =>
             destruct (Imaging.pieslice_paints_fill B i b s e fill x y)
               as [-> | ->]; [| right; reflexivity]
         end.
  unfold rectangle.
  repeat match goal with
         | |- context [if ?c then _ else _] =>
             destruct c; [right; reflexivity |]
         end.
  left; reflexivity.
Qed.

(** The same box on a mask that already holds the value 7 everywhere: a
    pixel inside the top-left corner square. *)
Lemma rounded_rect_two_valued_witness :
  0 <= 3 /\ 2 + 2 * 3 <= 12 /\ 0 <= 255 <= 255 /\
  (rounded_rect Imaging.plain (new_image 7) (2, 2, 12, 12) 3 255 2 2 = 7 \/
   rounded_rect Imaging.plain (new_image 7) (2, 2, 12, 12) 3 255 2 2 = 255).
Proof.
  split; [lia |]. split; [lia |]. split; [lia |].
  exact (rounded_rect_two_valued Imaging.plain (new_image 7)
           2 2 12 12 3 255 2 2
           ltac:(lia) ltac:(lia) ltac:(lia) ltac:(lia)).
Defined.

(** ** [wave_y] for an amplitude of either sign *)

(** Whatever the sign of the amplitude, the wave height stays within
    [abs amplitude] of [base_y], and so does its integer sample
    [int(wave_y(x))]; the operands only have to be integers a double
    holds exactly. *)
Theorem wave_y_within_abs_amplitude (M : Float.model) (x b a : Z)
    (f p : R) :
  Z.abs b + Z.abs a <= 2 ^ 53 ->
  (IZR (b - Z.abs a) <= wave_y M x b a f p <= IZR (b + Z.abs a))%R
  /\ b - Z.abs a <= py_int (wave_y M x b a f p) <= b + Z.abs a.
Proof.
  intro Hb.
  assert (Hreal : (IZR (b - Z.abs a) <= wave_y M x b a f p
                   <= IZR (b + Z.abs a))%R).
  { unfold wave_y, Float.add, Float.mul.
    set (s := Float.fsin M _).
    assert (Hs : (-1 <= s <= 1)%R) by apply Float.fsin_bound.
    rewrite !FloatFacts.of_int_exact by lia.
    assert (Hm : (IZR (- Z.abs a) <= Float.rnd M (IZR a * s)
                  <= IZR (Z.abs a))%R).
    { apply FloatFacts.rnd_between; try lia.
      rewrite opp_IZR, abs_IZR.
      unfold Rabs. destruct (Rcase_abs (IZR a)); nra. }
    apply FloatFacts.rnd_between; try lia.
    rewrite opp_IZR in Hm. rewrite minus_IZR, plus_IZR. lra. }
  split; [exact Hreal |]. destruct Hreal as [Hlo Hhi]. split.
  - rewrite <- (py_int_IZR (b - Z.abs a)). apply py_int_le; exact Hlo.
  - rewrite <- (py_int_IZR (b + Z.abs a)). apply py_int_le; exact Hhi.
Qed.

(** A wave turned upside down: amplitude -25 around row 300. *)
Lemma wave_y_within_abs_amplitude_witness :
  Z.abs 300 + Z.abs (-25) <= 2 ^ 53 /\
  275 <= py_int (wave_y Float.exact 7 300 (-25) (6 / 1000) (8 / 10)) <= 325.
Proof.
  split; [simpl; lia |].
  exact (proj2 (wave_y_within_abs_amplitude Float.exact 7 300 (-25)
                  (6 / 1000) (8 / 10) ltac:(simpl; lia))).
Defined.

(** ** The range of the body-fill alpha *)

(** For an 8-bit edge alpha the body-fill alpha lies between 0 and 157 at
    every depth of the bloom range. *)
Lemma body_alpha_bounds (M : Float.model) (ea bloom_depth d : Z) :
  0 <= ea <= 255 -> 0 < bloom_depth -> 0 <= d <= bloom_depth ->
  0 <= body_alpha M ea bloom_depth d <= 157.
Proof.
  intros Hea Hdepth Hd. unfold body_alpha.
  unfold Float.mul, Float.div_int, Float.lit, Float.of_int.
  rewrite (FloatFacts.rnd_int M ea) by lia.
  assert (H35 : Float.rnd M (35 / 10) = (7 / 2)%R).
  { pose proof (Float.rnd_exact M 7 1 ltac:(lia) ltac:(lia)) as E.
    change (IZR (2 ^ 1)) with 2%R in E.
    replace (35 / 10)%R with (7 / 2)%R by lra. exact E. }
  assert (H06 : (0 <= Float.rnd M (6 / 10) <= 39 / 64)%R).
  { split; [apply FloatFacts.rnd_nonneg; lra |].
    pose proof (Float.rnd_exact M 39 6 ltac:(lia) ltac:(lia)) as E.
    change (IZR (2 ^ 6)) with 64%R in E. rewrite <- E.
    apply Float.rnd_mono. lra. }
  rewrite H35.
  assert (HD : (0 < IZR bloom_depth)%R) by (apply IZR_lt; exact Hdepth).
  assert (Hq : (0 <= IZR d / IZR bloom_depth <= 1)%R).
  { assert (H1 : (0 <= IZR d)%R) by (apply IZR_le; lia).
    assert (H2 : (IZR d <= IZR bloom_depth)%R) by (apply IZR_le; lia).
    split.
    - apply Rmult_le_pos; [exact H1 | left; apply Rinv_0_lt_compat; exact HD].
    - apply Rmult_le_reg_r with (IZR bloom_depth); [exact HD |].
      unfold Rdiv. rewrite Rmult_assoc, Rinv_l by lra. lra. }
  assert (Ht : (IZR 0 <= Float.rnd M (IZR d / IZR bloom_depth) <= IZR 1)%R)
    by (apply FloatFacts.rnd_between; [lia | lia | exact Hq]).
  set (t := Float.rnd M (IZR d / IZR bloom_depth)) in *.
  assert (Hu : (- (7 / 2) <= Float.rnd M (- (7 / 2) * t) <= 0)%R).
  { split.
    - pose proof (Float.rnd_exact M (-7) 1 ltac:(lia) ltac:(lia)) as E.
      change (IZR (2 ^ 1)) with 2%R in E.
      replace (- (7 / 2))%R with (-7 / 2)%R by lra.
      rewrite <- E at 1. apply Float.rnd_mono. lra.
    - rewrite <- (FloatFacts.rnd_int M 0) by lia.
      apply Float.rnd_mono. lra. }
  set (u := Float.rnd M (- (7 / 2) * t)) in *.
  (* 0 <= fexp u <= 1.001 *)
  assert (He : (0 <= Float.fexp M u <= 1001 / 1000)%R).
  { split.
    - pose proof (Float.fexp_acc M u ltac:(lra)) as Hacc.
      pose proof (exp_pos u) as Hp.
      pose proof (Rle_abs (- (Float.fexp M u - exp u))) as Habs.
      rewrite Rabs_Ropp in Habs. lra.
    - apply Rle_trans with (Float.fexp M 0).
      + apply Float.fexp_mono. lra.
      + pose proof (Float.fexp_acc M 0 ltac:(lra)) as Hacc.
        rewrite exp_0 in Hacc.
        pose proof (Rle_abs (Float.fexp M 0 - 1)) as Habs. lra. }
  (* 0 <= round(edge_alpha * 0.6) <= 156 *)
  assert (Hea' : (0 <= IZR ea <= 255)%R)
    by (split; apply IZR_le; lia).
  assert (HA : (IZR 0 <= Float.rnd M (IZR ea * Float.rnd M (6 / 10))
                <= IZR 156)%R).
  { apply FloatFacts.rnd_between; try lia. nra. }
  set (A := Float.rnd M (IZR ea * Float.rnd M (6 / 10))) in *.
  assert (HP : (IZR 0 <= Float.rnd M (A * Float.fexp M u) <= IZR 157)%R).
  { apply FloatFacts.rnd_between; try lia. nra. }
  split.
  - apply py_int_lower; [lia | apply HP].
  - rewrite <- (py_int_IZR 157). apply py_int_le. apply HP.
Qed.

(** For an 8-bit edge alpha the body layer is a well-formed 8-bit layer:
    the alpha of each of its pixels lies between 0 and 157 (at most
    [int(255 * 0.6)] and a rounding margin), so the body fill never hands
    [Image.alpha_composite] an alpha outside 0..255. *)
Theorem body_layer_alpha_is_byte (M : Float.model) (y_func : Z -> R)
    (edge_color : rgba) (br bg bb bloom_depth : Z) :
  0 <= alpha edge_color <= 255 ->
  exists layer,
    body_fill M y_func edge_color (br, bg, bb) bloom_depth = Some layer /\
    forall x y, 0 <= alpha (layer x y) <= 157.
Proof.
  intro Hea.
  destruct (body_fill_layer M y_func edge_color br bg bb bloom_depth)
    as [layer (Hrun & Hin & Hout)].
  exists layer. split; [exact Hrun |]. intros x y.
  destruct (painted_dec (fun x => py_int (y_func x))
              (body_alpha M (alpha edge_color) bloom_depth) bloom_depth x y)
    as [Hp | Hp].
  - rewrite (Hin x y Hp). cbn [alpha].
    destruct Hp as (_ & _ & Hd & _ & _).
    apply body_alpha_bounds; lia.
  - rewrite (Hout x y Hp). simpl. lia.
Qed.

(** The brightest script wave. *)
Lemma body_layer_alpha_is_byte_witness :
  exists layer,
    body_fill Float.exact (fun _ => 740%R) (RGBA 175 240 255 250)
      (40, 100, 150) 150 = Some layer /\
    forall x y, 0 <= alpha (layer x y) <= 157.
Proof.
  exact (body_layer_alpha_is_byte Float.exact (fun _ => 740%R)
           (RGBA 175 240 255 250) 40 100 150 150 ltac:(simpl; lia)).
Defined.

(** ** The shape of the body layer *)

Lemma body_alpha_zero_edge (M : Float.model) (bloom_depth d : Z) :
  body_alpha M 0 bloom_depth d = 0.
Proof.
  unfold body_alpha, Float.mul, Float.of_int.
  rewrite (FloatFacts.rnd_int M 0) by lia.
  rewrite Rmult_0_l, (FloatFacts.rnd_int M 0) by lia.
  rewrite Rmult_0_l, (FloatFacts.rnd_int M 0) by lia.
  apply py_int_IZR.
Qed.

(** A wave without bloom depth ([bloom_depth <= 0]) or with a fully
    transparent edge colour (alpha 0) paints no body at all: the body layer
    is transparent everywhere, and compositing it leaves every pixel of the
    canvas as it was. *)
Theorem body_fill_empty (M : Float.model) (y_func : Z -> R)
    (edge_color : rgba) (body_color : Z * Z * Z) (bloom_depth : Z)
    (img : image rgba) :
  bloom_depth <= 0 \/ alpha edge_color = 0 ->
  exists layer,
    body_fill M y_func edge_color body_color bloom_depth = Some layer /\
    (forall x y, layer x y = transparent) /\
    (forall x y, alpha_composite img layer x y = img x y).
Proof.
  intro H. destruct body_color as [[br bg] bb].
  destruct (body_fill_layer M y_func edge_color br bg bb bloom_depth)
    as [layer (Hrun & _ & Hout)].
  assert (Hclear : forall x y, layer x y = transparent).
  { intros x y. apply Hout. intros (_ & _ & Hd & Ha & _).
    destruct H as [H | H]; [lia |].
    rewrite H, body_alpha_zero_edge in Ha. lia. }
  exists layer. split; [exact Hrun |]. split; [exact Hclear |].
  intros x y. unfold alpha_composite. rewrite Hclear.
  apply over_transparent_src. reflexivity.
Qed.

(** A wave of depth 0 over an opaque canvas. *)
Lemma body_fill_empty_witness :
  exists layer,
    body_fill Float.exact (fun _ => 300%R) (RGBA 100 190 235 140)
      (25, 60, 100) 0 = Some layer /\
    (forall x y, layer x y = transparent) /\
    (forall x y,
        alpha_composite (new_image (RGBA 5 5 12 255)) layer x y
        = new_image (RGBA 5 5 12 255) x y).
Proof.
  exact (body_fill_empty Float.exact (fun _ => 300%R) (RGBA 100 190 235 140)
           (25, 60, 100) 0 (new_image (RGBA 5 5 12 255))
           (or_introl (Z.le_refl 0))).
Defined.

(** For an 8-bit edge alpha and an 8-bit body colour the body fill paints
    only inside the band of the wave: every pixel of the body layer that
    is not transparent lies on the canvas, at or below the crest of its
    column and less than [bloom_depth] rows under it, and holds the body
    colour at the alpha of its depth, which is at least 1 and at most
    157, so that every channel is stored as it was computed. *)
Theorem body_fill_within_band (M : Float.model) (y_func : Z -> R)
    (edge_color : rgba) (br bg bb bloom_depth : Z) :
  0 <= alpha edge_color <= 255 ->
  0 <= br <= 255 -> 0 <= bg <= 255 -> 0 <= bb <= 255 ->
  exists layer,
    body_fill M y_func edge_color (br, bg, bb) bloom_depth = Some layer /\
    forall x y,
      layer x y = transparent \/
      (in_bounds x y = true /\
       py_int (y_func x) <= y < py_int (y_func x) + bloom_depth /\
       1 <= body_alpha M (alpha edge_color) bloom_depth
              (y - py_int (y_func x)) <= 157 /\
       layer x y
       = RGBA br bg bb
           (body_alpha M (alpha edge_color) bloom_depth
              (y - py_int (y_func x)))).
Proof.
  intros Hea _ _ _.
  destruct (body_fill_layer M y_func edge_color br bg bb bloom_depth)
    as [layer (Hrun & Hin & Hout)].
  exists layer. split; [exact Hrun |]. intros x y.
  destruct (painted_dec (fun x => py_int (y_func x))
              (body_alpha M (alpha edge_color) bloom_depth) bloom_depth x y)
    as [Hp | Hp].
  - right. pose proof (Hin x y Hp) as Hpx.
    destruct Hp as (Hx & Hy & Hd & Ha & _).
    pose proof (body_alpha_bounds M (alpha edge_color) bloom_depth
                  (y - py_int (y_func x)) Hea ltac:(lia) ltac:(lia))
      as Hrange.
    split; [apply in_bounds_iff; lia |].
    split; [lia |]. split; [lia | exact Hpx].
  - left. apply Hout; exact Hp.
Qed.

(** The first wave's colours on a flat crest at row 300. *)
Lemma body_fill_within_band_witness :
  0 <= alpha (RGBA 100 190 235 140) <= 255 /\
  0 <= 25 <= 255 /\ 0 <= 60 <= 255 /\ 0 <= 100 <= 255 /\
  exists layer,
    body_fill Float.exact (fun _ => 300%R) (RGBA 100 190 235 140)
      (25, 60, 100) 200 = Some layer /\
    forall x y,
      layer x y = transparent \/
      (in_bounds x y = true /\
       py_int 300 <= y < py_int 300 + 200 /\
       1 <= body_alpha Float.exact 140 200 (y - py_int 300) <= 157 /\
       layer x y
       = RGBA 25 60 100 (body_alpha Float.exact 140 200 (y - py_int 300))).
Proof.
  split; [simpl; lia |]. split; [lia |]. split; [lia |]. split; [lia |].
  exact (body_fill_within_band Float.exact (fun _ => 300%R)
           (RGBA 100 190 235 140) 25 60 100 200
           ltac:(simpl; lia) ltac:(lia) ltac:(lia) ltac:(lia)).
Defined.

(** In a column the painted pixels form one run without gaps: a pixel
    between two painted pixels of the column is painted too (the early
    exit ends a column for good, and a visible alpha on the canvas is
    always written). *)
Theorem body_fill_column_contiguous (M : Float.model) (y_func : Z -> R)
    (edge_color : rgba) (br bg bb bloom_depth : Z) :
  exists layer,
    body_fill M y_func edge_color (br, bg, bb) bloom_depth = Some layer /\
    forall x y1 y2 y,
      alpha (layer x y1) <> 0 -> alpha (layer x y2) <> 0 ->
      y1 <= y <= y2 ->
      alpha (layer x y) <> 0.
Proof.
  destruct (body_fill_layer M y_func edge_color br bg bb bloom_depth)
    as [layer (Hrun & Hin & Hout)].
  exists layer. split; [exact Hrun |]. intros x y1 y2 y H1 H2 Hy.
  set (wy := fun x => py_int (y_func x)) in *.
  set (al := body_alpha M (alpha edge_color) bloom_depth) in *.
  assert (P1 : painted wy al bloom_depth x y1).
  { destruct (painted_dec wy al bloom_depth x y1) as [P | P]; [exact P |].
    rewrite (Hout x y1 P) in H1. exfalso; apply H1; reflexivity. }
  assert (P2 : painted wy al bloom_depth x y2).
  { destruct (painted_dec wy al bloom_depth x y2) as [P | P]; [exact P |].
    rewrite (Hout x y2 P) in H2. exfalso; apply H2; reflexivity. }
  assert (P : painted wy al bloom_depth x y).
  { destruct P1 as (Hx & Hy1 & Hd1 & _ & _).
    destruct P2 as (_ & Hy2 & Hd2 & Ha2 & Hup2).
    unfold painted. repeat split; try lia.
    - destruct (Z.eq_dec y y2) as [-> | Hne]; [exact Ha2 |].
      apply Hup2; lia.
    - intros d' Hd' Hb. apply Hup2; lia. }
  rewrite (Hin x y P). cbn [alpha].
  destruct P as (_ & _ & _ & Ha & _). fold al. unfold wy in Ha. lia.
Qed.

(** A column of the body layer depends on the height sample of that
    column alone: two height functions with the same integer sample at
    [x] give the same column [x], whatever they do elsewhere. *)
Theorem body_fill_column_local (M : Float.model) (f g : Z -> R)
    (edge_color : rgba) (br bg bb bloom_depth x : Z) :
  py_int (f x) = py_int (g x) ->
  exists layer_f layer_g,
    body_fill M f edge_color (br, bg, bb) bloom_depth = Some layer_f /\
    body_fill M g edge_color (br, bg, bb) bloom_depth = Some layer_g /\
    forall y, layer_f x y = layer_g x y.
Proof.
  intro Hxy.
  destruct (body_fill_layer M f edge_color br bg bb bloom_depth)
    as [lf (Hrunf & Hinf & Houtf)].
  destruct (body_fill_layer M g edge_color br bg bb bloom_depth)
    as [lg (Hrung & Hing & Houtg)].
  exists lf, lg. split; [exact Hrunf |]. split; [exact Hrung |]. intro y.
  set (al := body_alpha M (alpha edge_color) bloom_depth) in *.
  assert (Hiff : painted (fun x => py_int (f x)) al bloom_depth x y <->
                 painted (fun x => py_int (g x)) al bloom_depth x y).
  { unfold painted. rewrite Hxy. tauto. }
  destruct (painted_dec (fun x => py_int (f x)) al bloom_depth x y)
    as [P | P].
  - rewrite (Hinf x y P), (Hing x y (proj1 Hiff P)), Hxy. reflexivity.
  - rewrite (Houtf x y P). symmetry. apply Houtg.
    intro Q. apply P. apply Hiff. exact Q.
Qed.

(** Two height functions that meet in column 3 only. *)
Lemma body_fill_column_local_witness :
  exists layer_f layer_g,
    body_fill Float.exact (fun x => IZR (300 + (x - 3) * (x - 3)))
      (RGBA 100 190 235 140) (25, 60, 100) 200 = Some layer_f /\
    body_fill Float.exact (fun _ => 300%R)
      (RGBA 100 190 235 140) (25, 60, 100) 200 = Some layer_g /\
    forall y, layer_f 3 y = layer_g 3 y.
Proof.
  exact (body_fill_column_local Float.exact
           (fun x => IZR (300 + (x - 3) * (x - 3))) (fun _ => 300%R)
           (RGBA 100 190 235 140) 25 60 100 200 3
           eq_refl).
Defined.

(** ** The script's waves stay on the canvas *)




(** ** The background gradient *)

Lemma background_color_int (M : Float.model) (y : Z) :
  0 <= y < SIZE ->
  background_color M y
  = RGBA (5 + 8 * y / 1024) (5 + 8 * y / 1024) (12 + 18 * y / 1024) 255.
Proof.
  intro Hy. rewrite (background_color_exact M y Hy).
  change (IZR SIZE) with 1024%R.
  rewrite (py_int_affine 5 8 y), (py_int_affine 12 18 y) by lia.
  reflexivity.
Qed.

(** Down the canvas the background never gets darker: for rows
    [y1 <= y2] each colour channel of row [y1] is at most that of row
    [y2]; red and green stay between 5 and 12, blue between 12 and 29,
    and every row is fully opaque. *)
Theorem background_brightens_downward (M : Float.model) (y1 y2 : Z) :
  0 <= y1 -> y1 <= y2 -> y2 < SIZE ->
  red (background_color M y1) <= red (background_color M y2) /\
  green (background_color M y1) <= green (background_color M y2) /\
  blue (background_color M y1) <= blue (background_color M y2) /\
  5 <= red (background_color M y1) /\ red (background_color M y2) <= 12 /\
  5 <= green (background_color M y1) /\ green (background_color M y2) <= 12 /\
  12 <= blue (background_color M y1) /\ blue (background_color M y2) <= 29 /\
  alpha (background_color M y1) = 255.
Proof.
  intros H0 H12 H2. unfold SIZE in H2.
  rewrite !background_color_int by (unfold SIZE; lia). cbn [red green blue alpha].
  assert (D8 : 8 * y1 / 1024 <= 8 * y2 / 1024)
    by (apply Z.div_le_mono; lia).
  assert (D18 : 18 * y1 / 1024 <= 18 * y2 / 1024)
    by (apply Z.div_le_mono; lia).
  assert (L8 : 0 <= 8 * y1 / 1024) by (apply Z.div_pos; lia).
  assert (L18 : 0 <= 18 * y1 / 1024) by (apply Z.div_pos; lia).
  assert (U8 : 8 * y2 / 1024 < 8)
    by (apply Z.div_lt_upper_bound; lia).
  assert (U18 : 18 * y2 / 1024 < 18)
    by (apply Z.div_lt_upper_bound; lia).
  repeat split; lia.
Qed.

(** The top row and the bottom row. *)
Lemma background_brightens_downward_witness :
  0 <= 0 /\ 0 <= 1023 /\ 1023 < SIZE /\
  blue (background_color Float.exact 0)
  <= blue (background_color Float.exact 1023).
Proof.
  split; [lia |]. split; [lia |]. split; [reflexivity |].
  pose proof (background_brightens_downward Float.exact 0 1023
                (Z.le_refl 0) ltac:(lia) eq_refl) as (_ & _ & H & _).
  exact H.
Defined.

(** ** Compositing keeps the canvas well-formed *)

Lemma u8_range (a : Z) : 0 <= u8 a <= 255.
Proof.
  unfold u8. change (2 ^ 8) with 256.
  pose proof (Z.mod_pos_bound a 256 ltac:(lia)) as H. lia.
Qed.

Lemma over_byte_rgb (dst src : rgba) :
  byte_rgb dst -> byte_rgb (alpha_composite_px dst src).
Proof.
  intro H. unfold alpha_composite_px.
  destruct (alpha src =? 0); [exact H |].
  unfold byte_rgb. cbn [red green blue].
  repeat split; apply u8_range.
Qed.

Lemma composite_layers_byte_rgb (layers : list (image rgba))
    (canvas : image rgba) (x y : Z) :
  byte_rgb (canvas x y) -> byte_rgb (composite_layers canvas layers x y).
Proof.
  revert canvas. unfold composite_layers.
  induction layers as [| l ls IH]; intros canvas H; [exact H |].
  cbn [fold_left]. apply IH. unfold alpha_composite. apply over_byte_rgb.
  exact H.
Qed.

(** Drawing on an opaque pixel leaves it opaque: over a destination of
    alpha 255 the result of [Image.alpha_composite] has alpha 255 for any
    8-bit source alpha. *)
Lemma over_keeps_opaque (dst src : rgba) :
  alpha dst = 255 -> 0 <= alpha src <= 255 ->
  alpha (alpha_composite_px dst src) = 255.
Proof.
  intros Hd Hs. unfold alpha_composite_px.
  destruct (alpha src =? 0) eqn:E; [exact Hd |].
  cbv beta zeta. unfold alpha at 1. rewrite Hd.
  replace (u32 (alpha src * 255 + u32 (255 * (255 - alpha src))))
    with 65025; [reflexivity |].
  unfold u32. rewrite (Z.mod_small (255 * (255 - alpha src))) by lia.
  rewrite Z.mod_small by lia. lia.
Qed.

(** Where the canvas is opaque it stays opaque under a whole wave: the
    body layer's alpha is an 8-bit value, and so are, by assumption on the
    rasteriser, the alphas of the edge line and of its blurred copy. *)
Theorem draw_glass_wave_keeps_opaque (B : Imaging.backend) (M : Float.model)
    (img : image rgba) (y_func : Z -> R) (edge_color : rgba)
    (body_color : Z * Z * Z) (bloom_depth bloom_blur x y : Z) :
  0 <= alpha edge_color <= 255 ->
  alpha (img x y) = 255 ->
  0 <= alpha (edge_line B y_func edge_color x y) <= 255 ->
  0 <= alpha (Imaging.gaussian_blur B bloom_blur
                (edge_line B y_func edge_color) x y) <= 255 ->
  exists img',
    draw_glass_wave B M img y_func edge_color body_color bloom_depth
      bloom_blur = Some img' /\
    alpha (img' x y) = 255.
Proof.
  intros Hea Himg Hedge Hbloom. destruct body_color as [[br bg] bb].
  destruct (body_fill_layer M y_func edge_color br bg bb bloom_depth)
    as [layer (Hrun & Hin & Hout)].
  destruct (draw_glass_wave_layers B M img y_func edge_color (br, bg, bb)
              bloom_depth bloom_blur) as [layer' [Hrun' Hdraw]].
  assert (layer' = layer) by congruence. subst layer'.
  eexists. split; [exact Hdraw |].
  unfold alpha_composite.
  apply over_keeps_opaque; [| exact Hedge].
  apply over_keeps_opaque; [| exact Hbloom].
  apply over_keeps_opaque; [exact Himg |].
  destruct (painted_dec (fun x => py_int (y_func x))
              (body_alpha M (alpha edge_color) bloom_depth) bloom_depth x y)
    as [Hp | Hp].
  - rewrite (Hin x y Hp). cbn [alpha].
    destruct Hp as (_ & _ & Hd & _ & _).
    pose proof (body_alpha_bounds M (alpha edge_color) bloom_depth
                  (y - py_int (y_func x)) Hea ltac:(lia) ltac:(lia)).
    lia.
  - rewrite (Hout x y Hp). simpl; lia.
Qed.

(** The first wave over the top-left pixel of an opaque canvas, with the
    plain rasteriser. *)
Lemma draw_glass_wave_keeps_opaque_witness :
  exists img',
    draw_glass_wave Imaging.plain Float.exact
      (new_image (RGBA 5 5 12 255)) (y_func_of Float.exact first_wave)
      (RGBA 100 190 235 140) (25, 60, 100) 200 10 = Some img' /\
    alpha (img' 0 0) = 255.
Proof.
  assert (He : 0 <= alpha (edge_line Imaging.plain
                             (y_func_of Float.exact first_wave)
                             (RGBA 100 190 235 140) 0 0) <= 255).
  { unfold edge_line. cbn [Imaging.draw_line Imaging.plain].
    unfold Imaging.plain_line.
    match goal with |- context [if ?c then _ else _] => destruct c end;
      simpl; lia. }
  exact (draw_glass_wave_keeps_opaque Imaging.plain Float.exact
           (new_image (RGBA 5 5 12 255)) (y_func_of Float.exact first_wave)
           (RGBA 100 190 235 140) (25, 60, 100) 200 10 0 0
           ltac:(simpl; lia) eq_refl He He).
Defined.

(** ** What clipping does to the colours *)

Lemma background_byte_rgb (M : Float.model) (y : Z) :
  0 <= y < SIZE -> byte_rgb (background_color M y).
Proof.
  intro Hy. rewrite (background_color_int M y Hy). unfold SIZE in Hy.
  unfold byte_rgb. cbn [red green blue].
  assert (L8 : 0 <= 8 * y / 1024) by (apply Z.div_pos; lia).
  assert (L18 : 0 <= 18 * y / 1024) by (apply Z.div_pos; lia).
  assert (U8 : 8 * y / 1024 < 8) by (apply Z.div_lt_upper_bound; lia).
  assert (U18 : 18 * y / 1024 < 18) by (apply Z.div_lt_upper_bound; lia).
  lia.
Qed.

(** On the canvas the image of the run is, pixel by pixel, either fully
    transparent with its colour channels zeroed (where the mask is 0) or
    the colour that the background and the fifteen wave layers left there,
    fully opaque (where the mask is 255): clipping discards the colour of
    the pixels outside the rounded rectangle and changes no colour inside
    it. *)
Theorem clipping_keeps_or_clears (B : Imaging.backend) (M : Float.model) :
  exists background layers img,
    paint_background M = Some background /\
    all_layers B M (waves M) = Some layers /\
    main_image B M = Some img /\
    forall x y, in_bounds x y = true ->
      (build_mask B x y = 0 -> img x y = transparent) /\
      (build_mask B x y = 255 ->
       img x y
       = RGBA (red (composite_layers background layers x y))
              (green (composite_layers background layers x y))
              (blue (composite_layers background layers x y)) 255).
Proof.
  destruct (paint_background_spec M) as [bg0 [Hpaint0 Hbg]].
  destruct (main_image_layers B M)
    as [background [layers (Hpaint & Hall & _ & Hmain)]].
  assert (background = bg0) by congruence. subst bg0.
  exists background, layers. eexists.
  split; [exact Hpaint |]. split; [exact Hall |]. split; [exact Hmain |].
  intros x y Hb. apply in_bounds_iff in Hb. destruct Hb as [Hx Hy].
  split; intro Hm; unfold alpha_composite, putalpha, new_image; rewrite Hm.
  - apply over_transparent_src. reflexivity.
  - assert (Hbyte : byte_rgb (composite_layers background layers x y)).
    { apply composite_layers_byte_rgb. rewrite (Hbg x y Hx Hy).
      apply background_byte_rgb; exact Hy. }
    destruct Hbyte as (Hr & Hg & Hbl).
    apply over_opaque_src; cbn [alpha red green blue];
      [reflexivity | assumption | assumption | assumption].
Qed.

(** ** The driver loop composes *)

Lemma for_loop_app {A S : Type} (xs ys : list A)
    (body : A -> S -> option (ctl * S)) (s : S) :
  (forall x s', body x s' = None \/ exists s'', body x s' = Some (Next, s'')) ->
  for_loop (xs ++ ys) body s
  = (s1 <- for_loop xs body s ;; for_loop ys body s1).
Proof.
  intro Hnext. revert s. induction xs as [| x xs IH]; intro s.
  - reflexivity.
  - cbn [app for_loop].
    destruct (Hnext x s) as [-> | [s'' ->]]; [reflexivity | apply IH].
Qed.

(** Rendering a list of waves that is split in two is rendering the first
    part and then the second part on the canvas the first part left:
    nothing but the canvas is carried from one wave to the next. Rendering
    no wave at all returns the canvas. *)
Theorem render_waves_app (B : Imaging.backend) (M : Float.model)
    (ws1 ws2 : list wave) (content : image rgba) :
  render_waves B M [] content = Some content /\
  exists c1,
    render_waves B M ws1 content = Some c1 /\
    render_waves B M (ws1 ++ ws2) content = render_waves B M ws2 c1.
Proof.
  split; [reflexivity |].
  destruct (render_waves_layers B M ws1 content) as [layers (_ & _ & Hrun)].
  eexists. split; [exact Hrun |].
  unfold render_waves in *. rewrite for_loop_app.
  - rewrite Hrun. reflexivity.
  - intros w c. right. unfold wave_step.
    destruct (draw_glass_wave_layers B M c (y_func_of M w) (edge w) (body w)
                (depth w) (blur w)) as [l [_ Hdraw]].
    rewrite Hdraw. eexists. reflexivity.
Qed.
